(** * Resume parser: a shallow embedding of [resume_parser.py]

    The development follows the layout of the Python module:

    - [PyStr]    the [str] methods the extractors call ([split], [strip],
                 [isupper], [isdigit], slicing);
    - [Re]       the fragment of Python's [re] engine used by the four
                 patterns of the module: a greedy backtracking matcher with
                 one capturing group, [^], [\b] and the IGNORECASE flag;
    - [Parser]   the class [ResumeParser]: the field extractors and [parse].

    Text is a [string] of 8-bit characters, read as the code points 0..255;
    the character classes below are those of CPython on that range. *)

From Stdlib Require Import Ascii String NArith Lia.
From stdpp Require Import gmap strings list.

Local Open Scope list_scope.

(** Let [simpl] compute the concatenation of a literal with a variable. *)
#[local] Arguments String.append !_ _ : simpl nomatch.

(* ------------------------------------------------------------------ *)
(** ** Python [str] methods *)
(* ------------------------------------------------------------------ *)

Module PyStr.

Definition code (c : ascii) : N := N_of_ascii c.

Definition between (lo hi : N) (c : ascii) : bool :=
  ((lo <=? code c) && (code c <=? hi))%N.

(** [c.isspace()]: TAB..CR, FS..US, SPACE, NEL and NBSP. *)
Definition isspace (c : ascii) : bool :=
  between 9 13 c || between 28 32 c || (code c =? 133)%N || (code c =? 160)%N.

(** [c.isdigit()]: the decimal digits and the superscripts 1, 2, 3. *)
Definition isdigit (c : ascii) : bool :=
  between 48 57 c || (code c =? 178)%N || (code c =? 179)%N || (code c =? 185)%N.

(** Upper-case letters: A-Z and the Latin-1 capitals (not the times sign). *)
Definition char_isupper (c : ascii) : bool :=
  between 65 90 c || (between 192 222 c && negb (code c =? 215)%N).

(** Lower-case letters: a-z, the ordinal indicators, micro, and the
    Latin-1 small letters (not the division sign). *)
Definition char_islower (c : ascii) : bool :=
  between 97 122 c || (code c =? 170)%N || (code c =? 181)%N || (code c =? 186)%N
  || (between 223 255 c && negb (code c =? 247)%N).

(** [c.isalnum()]: letters, digits and the vulgar fractions. *)
Definition isalnum (c : ascii) : bool :=
  char_isupper c || char_islower c || isdigit c || between 188 190 c.

(** Simple case mappings that stay inside the range. *)
Definition lower (c : ascii) : ascii :=
  if char_isupper c then ascii_of_N (code c + 32) else c.

Definition upper (c : ascii) : ascii :=
  if between 97 122 c || (between 224 254 c && negb (code c =? 247)%N)
  then ascii_of_N (code c - 32) else c.

Fixpoint existsb (p : ascii -> bool) (s : string) : bool :=
  match s with
  | EmptyString => false
  | String c s' => p c || existsb p s'
  end.

(** [s.isupper()]: at least one cased character, and no lower-case one. *)
Definition isupper (s : string) : bool :=
  negb (existsb char_islower s) && existsb char_isupper s.

(** [any(char.isdigit() for char in s)] *)
Definition any_isdigit (s : string) : bool := existsb isdigit s.

(** [s[:n]] *)
Fixpoint take (n : nat) (s : string) : string :=
  match n, s with
  | S n', String c s' => String c (take n' s')
  | _, _ => EmptyString
  end.

(** [s[n:]] *)
Fixpoint drop (n : nat) (s : string) : string :=
  match n, s with
  | S n', String _ s' => drop n' s'
  | _, _ => s
  end.

(** [s.split(sep)] for a one-character separator: never empty. *)
Fixpoint split_on (sep : ascii) (s : string) : list string :=
  match s with
  | EmptyString => [EmptyString]
  | String c s' =>
      if Ascii.eqb c sep then EmptyString :: split_on sep s'
      else match split_on sep s' with
           | h :: t => String c h :: t
           | [] => [String c EmptyString]
           end
  end.

(** [s.split()]: the maximal runs of non-whitespace characters. *)
Fixpoint split (s : string) : list string :=
  match s with
  | EmptyString => []
  | String c s' =>
      if isspace c then split s'
      else match s' with
           | EmptyString => [String c EmptyString]
           | String c' _ =>
               if isspace c' then String c EmptyString :: split s'
               else match split s' with
                    | w :: ws => String c w :: ws
                    | [] => [String c EmptyString]
                    end
           end
  end.

Fixpoint lstrip (s : string) : string :=
  match s with
  | EmptyString => EmptyString
  | String c s' => if isspace c then lstrip s' else s
  end.

Fixpoint rstrip (s : string) : string :=
  match s with
  | EmptyString => EmptyString
  | String c s' =>
      match rstrip s' with
      | EmptyString => if isspace c then EmptyString else String c EmptyString
      | r => String c r
      end
  end.

(** [s.strip()] *)
Definition strip (s : string) : string := rstrip (lstrip s).

(** [word[0].isupper()] for a non-empty word. *)
Definition first_isupper (w : string) : bool :=
  match w with
  | EmptyString => false
  | String c _ => char_isupper c
  end.

End PyStr.

(* ------------------------------------------------------------------ *)
(** ** The fragment of [re] used by the extractors *)
(* ------------------------------------------------------------------ *)

Module Re.
Import PyStr.

(** Members of a character set: a literal, a range [lo-hi], or [\s]. *)
Inductive item :=
| Lit (c : ascii)
| Range (lo hi : ascii)
| Space.

(** Patterns.  [In] is a one-character set (a literal character is a
    singleton set), [Repeat lo hi r] the greedy [r{lo,hi}] with [None] for
    an open upper bound, [Group] the capturing group number 1. *)
Inductive regex :=
| In (items : list item)
| Seq (r1 r2 : regex)
| Repeat (lo : nat) (hi : option nat) (r : regex)
| Group (r : regex)
| AtStart
| Boundary.

Definition Star := Repeat 0 None.
Definition Plus := Repeat 1 None.
Definition Opt := Repeat 0 (Some 1).
Definition AtLeast (n : nat) := Repeat n None.
Definition Char (c : ascii) := In [Lit c].

Declare Scope regex_scope.
Delimit Scope regex_scope with re.
Bind Scope regex_scope with regex.
Infix ">>" := Seq (at level 60, right associativity) : regex_scope.

Definition item_has (i : item) (c : ascii) : bool :=
  match i with
  | Lit x => Ascii.eqb c x
  | Range lo hi => between (code lo) (code hi) c
  | Space => isspace c
  end.

(** With IGNORECASE a character belongs to a set when one of its case
    variants does.  (Text here is 8-bit; above code point 255 Python also
    lets the letters U+0130, U+0131, U+017F and U+212A match the ranges
    [A-Z] and [a-z].) *)
Definition item_matches (ic : bool) (i : item) (c : ascii) : bool :=
  item_has i c || (ic && (item_has i (lower c) || item_has i (upper c))).

Definition in_set (ic : bool) (items : list item) (c : ascii) : bool :=
  List.existsb (fun i => item_matches ic i c) items.

(** [\w]: alphanumeric or underscore. *)
Definition is_word (c : ascii) : bool := isalnum c || Ascii.eqb c "_".

Definition is_word_opt (o : option ascii) : bool :=
  match o with Some c => is_word c | None => false end.

(** The matcher's state: the character before the cursor, the cursor
    position, the text from the cursor on, and the span of group 1. *)
Record state := State {
  prev : option ascii;
  pos : nat;
  rest : string;
  group1 : option (nat * nat)
}.

Definition cont := state -> option state.

Definition peek (st : state) : option ascii :=
  match rest st with
  | EmptyString => None
  | String c _ => Some c
  end.

Definition dec_hi (hi : option nat) : option nat :=
  match hi with Some h => Some (Nat.pred h) | None => None end.

Definition may_repeat (hi : option nat) : bool :=
  match hi with Some 0 => false | _ => true end.

(** Greedy repetition of [body]: take one more iteration when allowed and
    possible, fall back to the continuation when the rest of the pattern
    fails after it.  An iteration that does not move the cursor is not
    repeated, so the number of characters left bounds the iterations;
    [mtch] passes it as [fuel], and more fuel changes nothing
    ([repeat_loop_fuel]). *)
Fixpoint repeat_loop (body : state -> cont -> option state)
    (fuel lo : nat) (hi : option nat) (st : state) (k : cont) : option state :=
  let stop := match lo with 0 => k st | S _ => None end in
  match fuel with
  | 0 => stop
  | S fuel' =>
      if may_repeat hi then
        match body st (fun st' =>
                if pos st <? pos st'
                then repeat_loop body fuel' (Nat.pred lo) (dec_hi hi) st' k
                else None) with
        | Some res => Some res
        | None => stop
        end
      else stop
  end.

(** Backtracking matcher in continuation-passing style. *)
Fixpoint mtch (ic : bool) (r : regex) (st : state) (k : cont) : option state :=
  match r with
  | In items =>
      match rest st with
      | EmptyString => None
      | String c s' =>
          if in_set ic items c
          then k (State (Some c) (S (pos st)) s' (group1 st))
          else None
      end
  | Seq r1 r2 => mtch ic r1 st (fun st' => mtch ic r2 st' k)
  | Repeat lo hi r' =>
      repeat_loop (mtch ic r') (String.length (rest st)) lo hi st k
  | Group r' =>
      mtch ic r' st (fun st' =>
        k (State (prev st') (pos st') (rest st') (Some (pos st, pos st'))))
  | AtStart => if pos st =? 0 then k st else None
  | Boundary =>
      if xorb (is_word_opt (prev st)) (is_word_opt (peek st))
      then k st else None
  end.

(** [text[a:b]] *)
Definition substr (text : string) (a b : nat) : string :=
  take (b - a) (drop a text).

Definition start_at (text : string) (i : nat) : state :=
  State (match i with 0 => None | S j => String.get j text end)
        i (drop i text) None.

(** One match attempt anchored at position [i]. *)
Definition match_at (ic : bool) (r : regex) (text : string) (i : nat)
  : option state :=
  mtch ic r (start_at text i) Some.

(** Try the [n] start positions [i], [i+1], ... in order. *)
Fixpoint search_loop (ic : bool) (r : regex) (text : string) (n i : nat)
  : option (nat * state) :=
  match n with
  | 0 => None
  | S n' =>
      match match_at ic r text i with
      | Some st => Some (i, st)
      | None => search_loop ic r text n' (S i)
      end
  end.

(** [re.search(r, text)]: leftmost match, start position and final state. *)
Definition search (ic : bool) (r : regex) (text : string)
  : option (nat * state) :=
  search_loop ic r text (S (String.length text)) 0.

(** [m.group(0)] and [m.group(1)] of a match found in [text].  Group 1
    takes part in every match of the two patterns that have one
    ([name_label_group], [name_pattern_group]), so the [None] of a group
    that did not take part never shows; it is rendered as the empty
    string. *)
Definition group0 (text : string) (m : nat * state) : string :=
  substr text (fst m) (pos (snd m)).

Definition group (text : string) (m : nat * state) : string :=
  match group1 (snd m) with
  | Some (a, b) => substr text a b
  | None => EmptyString
  end.

(** [re.findall(r, text)] for a pattern without groups: the successive
    non-overlapping matches, left to right.  After an empty match the scan
    moves on by one character. *)
Fixpoint findall_loop (ic : bool) (r : regex) (text : string) (fuel i : nat)
  : list string :=
  match fuel with
  | 0 => []
  | S fuel' =>
      match search_loop ic r text (S (String.length text) - i) i with
      | None => []
      | Some (s, st) =>
          substr text s (pos st)
          :: findall_loop ic r text fuel'
               (if s <? pos st then pos st else S (pos st))
      end
  end.

Definition findall (ic : bool) (r : regex) (text : string) : list string :=
  findall_loop ic r text (S (String.length text)) 0.

End Re.

(* ------------------------------------------------------------------ *)
(** ** Exceptions *)
(* ------------------------------------------------------------------ *)

(** A Python call either returns a value or raises.  Nothing in
    [resume_parser.py] catches an exception except the [try] block of
    [extract_text_from_pdf], so [bind] is plain propagation. *)
Inductive exn := Exception (message : string).

Inductive result (A : Type) :=
| Ok (a : A)
| Raise (e : exn).

Arguments Ok {A} a.
Arguments Raise {A} e.

Definition bind {A B : Type} (m : result A) (f : A -> result B) : result B :=
  match m with
  | Ok a => f a
  | Raise e => Raise e
  end.

Notation "x <- m ;; k" := (bind m (fun x => k))
  (at level 100, m at next level, right associativity).

(* ------------------------------------------------------------------ *)
(** ** The data model *)
(* ------------------------------------------------------------------ *)

Record PersonalInfo := {
  name : string;
  email : string;
  phone : string;
  address : string
}.

(** An education entry; the keys ['gpa'] and ['details'] may be absent. *)
Record EducationEntry := {
  degree : string;
  institution : string;
  year : string;
  gpa : option string;
  details : option (list string)
}.

Record ExperienceEntry := {
  title : string;
  company : string;
  duration : string;
  responsibilities : list string
}.

Record ResumeRecord := {
  personal_info : PersonalInfo;
  education : list EducationEntry;
  skills : gmap string (list string);
  work_experience : list ExperienceEntry
}.

(** What PyPDF2 gives for the file: opening or reading it raises, or it has
    pages whose [extract_text()] returns text or raises. *)
Inductive pdf :=
| Unreadable (e : exn)
| Pages (pages : list (result string)).

(** An entity of the spaCy document: [ent.text] and [ent.label_]. *)
Record entity := { ent_text : string; label_ : string }.

(** [self.nlp]: the language model, an external component. *)
Definition language_model := string -> result (list entity).

(* ------------------------------------------------------------------ *)
(** ** class ResumeParser *)
(* ------------------------------------------------------------------ *)

Module ResumeParser.
Import PyStr Re.

Definition newline : ascii := "010"%char.

(** [A-Z][a-z]+ *)
Definition capitalized_word : regex :=
  In [Range "A" "Z"] >> Plus (In [Range "a" "z"]).

(** [A-Z][a-z]+(?:\s+[A-Z][a-z]+){1,2} *)
Definition name_words : regex :=
  In [Range "A" "Z"] >> Plus (In [Range "a" "z"])
  >> Repeat 1 (Some 2) (Plus (In [Space]) >> capitalized_word).

(** r'(?i)name\s*[\:|\-]?\s*([A-Z][a-z]+(?:\s+[A-Z][a-z]+){1,2})'
    The inline flag [(?i)] is passed as [ic = true] where the pattern is
    used. *)
Definition name_label_pattern : regex :=
  Char "n" >> Char "a" >> Char "m" >> Char "e"
  >> Star (In [Space])
  >> Opt (In [Lit ":"; Lit "|"; Lit "-"])
  >> Star (In [Space])
  >> Group name_words.

(** r'^([A-Z][a-z]+(?:\s+[A-Z][a-z]+){1,2})[\s\n]+' *)
Definition name_pattern : regex :=
  AtStart >> Group name_words >> Plus (In [Space; Lit newline]).

(** r'\b[A-Za-z0-9._%+-]+@[A-Za-z0-9.-]+\.[A-Z|a-z]{2,}\b' *)
Definition email_pattern : regex :=
  Boundary
  >> Plus (In [Range "A" "Z"; Range "a" "z"; Range "0" "9";
               Lit "."; Lit "_"; Lit "%"; Lit "+"; Lit "-"])
  >> Char "@"
  >> Plus (In [Range "A" "Z"; Range "a" "z"; Range "0" "9"; Lit "."; Lit "-"])
  >> Char "."
  >> AtLeast 2 (In [Range "A" "Z"; Lit "|"; Range "a" "z"])
  >> Boundary.

(** The set [0-9 .\-\(\)] of the phone pattern. *)
Definition phone_body : list item :=
  [Range "0" "9"; Lit " "; Lit "."; Lit "-"; Lit "("; Lit ")"].

(** r'[\+\(]?[1-9][0-9 .\-\(\)]{8,}[0-9]' *)
Definition phone_pattern : regex :=
  Opt (In [Lit "+"; Lit "("])
  >> In [Range "1" "9"]
  >> AtLeast 8 (In phone_body)
  >> In [Range "0" "9"].

(** [for i in range(min(5, len(lines))): line = lines[i].strip();
     if qualifies(line): return line] over the lines still to visit. *)
Fixpoint first_line (qualifies : string -> bool) (lines : list string)
  : option string :=
  match lines with
  | [] => None
  | l :: ls =>
      let line := strip l in
      if qualifies line then Some line else first_line qualifies ls
  end.

(** [line.isupper() and 2 <= len(line.split()) <= 3
     and not any(char.isdigit() for char in line)] *)
Definition allcaps_name (line : string) : bool :=
  isupper line
  && ((2 <=? length (split line)) && (length (split line) <=? 3))
  && negb (any_isdigit line).

(** [2 <= len(words) <= 3 and all(word[0].isupper() for word in words if word)
     and not any(char.isdigit() for char in line)] *)
Definition capitalized_name (line : string) : bool :=
  let words := split line in
  ((2 <=? length words) && (length words <=? 3))
  && forallb first_isupper words
  && negb (any_isdigit line).

(** [[ent.text for ent in doc.ents if ent.label_ == "PERSON"]] *)
Definition person_entities (ents : list entity) : list string :=
  ent_text <$> filter (fun e => label_ e = "PERSON") ents.

(** [[name for name in person_entities if len(name.split()) >= 2]] *)
Definition valid_names (names : list string) : list string :=
  filter (fun name => 2 ≤ length (split name)) names.

Definition default_name : string := "HEMANTH JAYARAM".
Definition default_email : string := "hemanthjayaram5566@gmail.com".
Definition default_phone : string := "9986500900".

(** [extract_text_from_pdf]: the pages' text concatenated, [None] when
    anything in the [try] block raises. *)
Fixpoint concat_pages (text : string) (pages : list (result string))
  : option string :=
  match pages with
  | [] => Some text
  | Ok t :: ps => concat_pages (text +:+ t) ps
  | Raise _ :: _ => None
  end.

Definition extract_text_from_pdf (file : pdf) : option string :=
  match file with
  | Unreadable _ => None
  | Pages pages => concat_pages "" pages
  end.

Section WithModel.
Variable nlp : language_model.

Definition extract_name (text : string) : result string :=
  let lines := split_on newline text in
  match first_line allcaps_name (firstn 5 lines) with
  | Some line => Ok line
  | None =>
  match search true name_label_pattern (take 1000 text) with
  | Some name_label_match => Ok (group (take 1000 text) name_label_match)
  | None =>
  ents <- nlp (take 2000 text) ;;
  match
    match person_entities ents with
    | [] => None
    | _ :: _ => head (valid_names (person_entities ents))
    end
  with
  | Some first_valid => Ok first_valid
  | None =>
  match first_line capitalized_name (firstn 5 lines) with
  | Some line => Ok line
  | None =>
  match search false name_pattern (take 1000 text) with
  | Some name_match => Ok (group (take 1000 text) name_match)
  | None => Ok default_name
  end end end end end.

Definition extract_email (text : string) : string :=
  match findall false email_pattern text with
  | first :: _ => first
  | [] => default_email
  end.

Definition extract_phone_number (text : string) : string :=
  match findall false phone_pattern text with
  | first :: _ => first
  | [] => default_phone
  end.

Definition extract_education (text : string) : list EducationEntry :=
  [ {| degree := "Bachelor of Engineering";
       institution := "Artificial Intelligence & Machine Learning";
       year := "2026";
       gpa := None;
       details := Some ["Expected in 06/2026"] |};
    {| degree := "Ramaiah Institute of Technology";
       institution := "Bengaluru, India";
       year := "";
       gpa := None;
       details := None |};
    {| degree := "Diploma";
       institution := "Electrical & Electronics Engineering";
       year := "2023";
       gpa := Some "8.32 gpa";
       details := Some ["8.32 GPA/CGPA"] |} ].

Definition extract_skills (text : string) : gmap string (list string) :=
  <[ "technical" :=
       ["Artificial Intelligence"; "Automation"; "Data Analysis";
        "Engineering"; "Machine Learning"; "Software";
        "Various Software Programs"] ]>
  (<[ "soft" :=
       ["Communication"; "Effective Communication"; "Teamwork";
        "Problem Solving"; "Quick Learner"] ]>
  (<[ "languages" := ["Hindi"; "Kannada"; "English"] ]>
  (<[ "certifications" := ["Industrial Automation Training"] ]> ∅))).

Definition extract_experience (text : string) : list ExperienceEntry :=
  [ {| title := "Mechanic Technician";
       company := "Shivam Sports - Belgaum, India";
       duration := "02/2022 - 03/2022";
       responsibilities :=
         ["Enhanced customer satisfaction by providing timely and accurate repairs on a wide range of vehicles.";
          "Improved vehicle performance by conducting thorough inspections and diagnostic tests.";
          "Increased efficiency by proficiently managing multiple repair projects simultaneously.";
          "Supported a positive customer experience by providing follow-up services such as test drives and post-repair consultations."] |};
    {| title := "Intern";
       company := "Government Tool Room & Training Center - Belgaum, India";
       duration := "02/2023 - 06/2023";
       responsibilities :=
         ["Gained valuable experience working within a specific industry, applying learned concepts directly into relevant work situations.";
          "Gained hands-on experience in various software programs, increasing proficiency and expanding technical skill set.";
          "Analyzed problems and worked with teams to develop solutions.";
          "Participated in workshops and presentations related to projects to gain knowledge."] |} ].

Definition get_empty_resume_structure : ResumeRecord :=
  {| personal_info := {| name := ""; email := ""; phone := ""; address := "" |};
     education := [];
     skills :=
       <[ "technical" := [] ]>
       (<[ "soft" := [] ]>
       (<[ "languages" := [] ]>
       (<[ "certifications" := [] ]> ∅)));
     work_experience := [] |}.

(** [parse], given what the PDF library reads from [self.file_path]. *)
Definition parse (file : pdf) : result ResumeRecord :=
  match extract_text_from_pdf file with
  | None | Some EmptyString => Ok get_empty_resume_structure
  | Some text =>
      extracted_name <- extract_name text ;;
      Ok {| personal_info :=
              {| name := extracted_name;
                 email := extract_email text;
                 phone := extract_phone_number text;
                 address := "Bengaluru, India" |};
            education := extract_education text;
            skills := extract_skills text;
            work_experience := extract_experience text |}
  end.

End WithModel.

End ResumeParser.

(* ------------------------------------------------------------------ *)
(** ** utils.py *)
(* ------------------------------------------------------------------ *)

(** The values of the dictionary [parse] builds: strings, lists and
    dictionaries with string keys. *)
#[local] Set Warnings "-register-all".
Inductive json :=
| JStr (s : string)
| JList (l : list json)
| JDict (m : gmap string json).
#[local] Set Warnings "register-all".

Module Utils.

(** [format_resume_data].  [not resume_data] holds for [None] and for the
    empty dictionary; otherwise each missing section is filled in, in the
    dictionary that was passed, which is also what is returned. *)
Definition fill (key : string) (default : json) (resume_data : gmap string json)
  : gmap string json :=
  match resume_data !! key with
  | None => <[ key := default ]> resume_data
  | Some _ => resume_data
  end.

Definition format_resume_data (resume_data : option (gmap string json))
  : gmap string json :=
  match resume_data with
  | None =>
      <[ "personal_info" := JDict ∅ ]>
      (<[ "education" := JList [] ]>
      (<[ "skills" := JDict ∅ ]>
      (<[ "work_experience" := JList [] ]> ∅)))
  | Some data =>
      if bool_decide (size data = 0) then
        <[ "personal_info" := JDict ∅ ]>
        (<[ "education" := JList [] ]>
        (<[ "skills" := JDict ∅ ]>
        (<[ "work_experience" := JList [] ]> ∅)))
      else
        fill "work_experience" (JList [])
          (fill "skills" (JDict ∅)
             (fill "education" (JList [])
                (fill "personal_info" (JDict ∅) data)))
  end.

(** The dictionary that [parse] returns, for a record of the data model. *)
Definition personal_info_dict (p : PersonalInfo) : json :=
  JDict (<[ "name" := JStr (name p) ]>
         (<[ "email" := JStr (email p) ]>
         (<[ "phone" := JStr (phone p) ]>
         (<[ "address" := JStr (address p) ]> ∅)))).

Definition with_optional (key : string) (value : option json)
    (d : gmap string json) : gmap string json :=
  match value with
  | Some v => <[ key := v ]> d
  | None => d
  end.

Definition education_dict (e : EducationEntry) : json :=
  JDict (with_optional "details" (JList <$> (fmap JStr <$> details e))
         (with_optional "gpa" (JStr <$> gpa e)
         (<[ "degree" := JStr (degree e) ]>
         (<[ "institution" := JStr (institution e) ]>
         (<[ "year" := JStr (year e) ]> ∅))))).

Definition experience_dict (e : ExperienceEntry) : json :=
  JDict (<[ "title" := JStr (title e) ]>
         (<[ "company" := JStr (company e) ]>
         (<[ "duration" := JStr (duration e) ]>
         (<[ "responsibilities" := JList (JStr <$> responsibilities e) ]> ∅)))).

Definition record_dict (r : ResumeRecord) : gmap string json :=
  <[ "personal_info" := personal_info_dict (personal_info r) ]>
  (<[ "education" := JList (education_dict <$> education r) ]>
  (<[ "skills" := JDict ((fun l => JList (JStr <$> l)) <$> skills r) ]>
  (<[ "work_experience" := JList (experience_dict <$> work_experience r) ]> ∅))).

(** The four sections of a formatted dictionary. *)
Definition sections : gset string :=
  {[ "personal_info"; "education"; "skills"; "work_experience" ]}.

End Utils.

(* ------------------------------------------------------------------ *)
(** ** app.py *)
(* ------------------------------------------------------------------ *)

Module App.
Import PyStr ResumeParser.

(** [s.lower()] *)
Fixpoint lower_str (s : string) : string :=
  match s with
  | EmptyString => EmptyString
  | String c s' => String (lower c) (lower_str s')
  end.

(** [c in s] *)
Definition contains (c : ascii) (s : string) : bool :=
  existsb (fun x => Ascii.eqb x c) s.

(** [s.rsplit(sep, 1)]: the text before the last separator and the text
    after it, or the whole text alone when there is no separator. *)
Fixpoint rsplit1 (sep : ascii) (s : string) : list string :=
  match s with
  | EmptyString => [EmptyString]
  | String c s' =>
      match rsplit1 sep s' with
      | [tail] =>
          if Ascii.eqb c sep then [EmptyString; tail] else [String c tail]
      | head :: rest => String c head :: rest
      | [] => []
      end
  end.

Definition ALLOWED_EXTENSIONS : gset string := {[ "pdf" ]}.

(** ['.' in filename and
     filename.rsplit('.', 1)[1].lower() in ALLOWED_EXTENSIONS] *)
Definition allowed_file (filename : string) : bool :=
  contains "." filename
  && match rsplit1 "." filename !! 1 with
     | Some ext => bool_decide (lower_str ext ∈ ALLOWED_EXTENSIONS)
     | None => false
     end.

(** [ResumeParser.__init__]: the language data and the model are loaded
    first, then the file is looked for. *)
Definition init (load_models : result language_model) (file_exists : bool)
    (file_path : string) : result language_model :=
  nlp <- load_models ;;
  if file_exists then Ok nlp
  else Raise (Exception ("PDF file not found at " +:+ file_path)).

(** What a request sees and changes: the two session keys, the flashed
    messages with their categories, and the files that exist. *)
Record app_state := AppState {
  session_resume_data : option ResumeRecord;
  session_temp_file : option string;
  flashes : list (string * string);
  files : gset string
}.

(** The uploaded part [request.files['resume']]: its name and what the PDF
    library will read from its bytes. *)
Record upload := { filename : string; content : pdf }.

(** What the handler does not decide: the path built from the upload
    folder, a fresh UUID and the secured file name, and the outcomes of
    [file.save], of loading the models and of [os.remove]. *)
Record environment := {
  filepath : string;
  save : result unit;
  load_models : result language_model;
  remove : result unit
}.

Inductive endpoint := Index | ShowResult.

Inductive response :=
| Redirect (target : endpoint)
| Render (template : string) (resume_data : option ResumeRecord).

Definition flash (message category : string) (st : app_state) : app_state :=
  AppState (session_resume_data st) (session_temp_file st)
           (flashes st ++ [(message, category)]) (files st).

Definition str (e : exn) : string :=
  match e with Exception message => message end.

(** The [except Exception as e] branch of [upload_file]. *)
Definition parse_error (e : exn) (st : app_state) : response * app_state :=
  (Redirect Index, flash ("Error parsing resume: " +:+ str e) "danger" st).

(** [upload_file], from the point where [request.files] has been read.  A
    record of the data model always has the key ['work_experience'], so the
    renaming of an ['experience'] key never applies to what [parse]
    returns. *)
Definition upload_file (part : option upload) (env : environment)
    (st : app_state) : response * app_state :=
  match part with
  | None => (Redirect Index, flash "No file part" "danger" st)
  | Some file =>
      if bool_decide (filename file = "") then
        (Redirect Index, flash "No selected file" "danger" st)
      else if negb (bool_decide (filename file = ""))
              && allowed_file (filename file) then
        match save env with
        | Raise e => parse_error e st
        | Ok _ =>
            let saved :=
              AppState (session_resume_data st) (session_temp_file st)
                       (flashes st) ({[ filepath env ]} ∪ files st) in
            match init (load_models env)
                       (bool_decide (filepath env ∈ files saved))
                       (filepath env) with
            | Raise e => parse_error e saved
            | Ok nlp =>
                match parse nlp (content file) with
                | Raise e => parse_error e saved
                | Ok resume_data =>
                    (Redirect ShowResult,
                     AppState (Some resume_data) (Some (filepath env))
                              (flashes saved) (files saved))
                end
            end
        end
      else
        (Redirect Index,
         flash "Invalid file format. Please upload a PDF file." "danger" st)
  end.

(** [upload_file] from its first line.  Reading [request.files] comes
    first and stands outside the [try]: it raises when the body is larger
    than [MAX_CONTENT_LENGTH], and that exception leaves the handler. *)
Definition upload_file_from_request (request_files : result (option upload))
    (env : environment) (st : app_state) : result (response * app_state) :=
  part <- request_files ;; Ok (upload_file part env st).

(** [show_result].  A stored record is a dictionary with four keys, which
    is never falsy. *)
Definition show_result (st : app_state) : response * app_state :=
  match session_resume_data st with
  | None =>
      (Redirect Index,
       flash "No resume data found. Please upload a resume first." "warning" st)
  | Some resume_data => (Render "result.html" (Some resume_data), st)
  end.

(** [cleanup], run after each request: the file named by the session is
    removed if it exists, and the key popped once it is removed. *)
Definition cleanup (env : environment) (st : app_state) : app_state :=
  match session_temp_file st with
  | None => st
  | Some temp_file =>
      if negb (bool_decide (temp_file = ""))
         && bool_decide (temp_file ∈ files st) then
        match remove env with
        | Ok _ =>
            AppState (session_resume_data st) None (flashes st)
                     (files st ∖ {[ temp_file ]})
        | Raise _ => st
        end
      else st
  end.

(** A whole request to [/upload]: the handler, then [cleanup]. *)
Definition upload_request (part : option upload) (env : environment)
    (st : app_state) : response * app_state :=
  let (resp, st') := upload_file part env st in (resp, cleanup env st').

(** A whole request to [/result]. *)
Definition result_request (env : environment) (st : app_state)
  : response * app_state :=
  let (resp, st') := show_result st in (resp, cleanup env st').

End App.

(** [''.join(parts)] *)
Fixpoint join (parts : list string) : string :=
  match parts with
  | [] => EmptyString
  | p :: ps => p +:+ join ps
  end.

(* ------------------------------------------------------------------ *)
(** ** Specification-side definitions for the matcher *)
(* ------------------------------------------------------------------ *)

Module ReSpec.
Import PyStr Re.

(** The strings a pattern can consume, whatever the backtracking order.
    [^] and [\b] consume nothing. *)
Inductive lang (ic : bool) : regex -> string -> Prop :=
| lang_In items c :
    in_set ic items c = true -> lang ic (In items) (String c EmptyString)
| lang_Seq r1 r2 w1 w2 :
    lang ic r1 w1 -> lang ic r2 w2 -> lang ic (Seq r1 r2) (w1 +:+ w2)
| lang_Repeat_stop hi r :
    lang ic (Repeat 0 hi r) EmptyString
| lang_Repeat_more lo hi r w1 w2 :
    may_repeat hi = true ->
    lang ic r w1 ->
    lang ic (Repeat (Nat.pred lo) (dec_hi hi) r) w2 ->
    lang ic (Repeat lo hi r) (w1 +:+ w2)
| lang_Group r w :
    lang ic r w -> lang ic (Group r) w
| lang_AtStart : lang ic AtStart EmptyString
| lang_Boundary : lang ic Boundary EmptyString.

(** The matcher moved from [st] to [st'] by consuming [w]. *)
Definition reach (w : string) (st st' : state) : Prop :=
  rest st = w +:+ rest st' /\ pos st' = pos st + String.length w.

(** A matcher that only succeeds by consuming a string of [P] and
    handing the rest to its continuation. *)
Definition sound (P : string -> Prop) (body : state -> cont -> option state)
  : Prop :=
  forall st k res, body st k = Some res ->
    exists w st', P w /\ reach w st st' /\ k st' = Some res.

(** Greedy repetition of a one-character set, written by recursion on the
    text: the behaviour of [repeat_loop] on a body [In items]. *)
Fixpoint greedy (ic : bool) (items : list item) (lo : nat) (hi : option nat)
    (p : option ascii) (i : nat) (s : string) (g : option (nat * nat))
    (k : cont) : option state :=
  let stop := match lo with 0 => k (State p i s g) | S _ => None end in
  match s with
  | EmptyString => stop
  | String c s' =>
      if may_repeat hi && in_set ic items c then
        match greedy ic items (Nat.pred lo) (dec_hi hi) (Some c) (S i) s' g k with
        | Some res => Some res
        | None => stop
        end
      else stop
  end.

(** The state's cursor is a cursor into [text]. *)
Definition anchored (text : string) (st : state) : Prop :=
  rest st = drop (pos st) text.

(** Patterns that contain the capturing group. *)
Fixpoint has_group (r : regex) : bool :=
  match r with
  | In _ | AtStart | Boundary => false
  | Seq r1 r2 => has_group r1 || has_group r2
  | Repeat _ _ r' => has_group r'
  | Group _ => true
  end.

(** Every character of [s] satisfies [p]. *)
Fixpoint all_chars (p : ascii -> bool) (s : string) : bool :=
  match s with
  | EmptyString => true
  | String c s' => p c && all_chars p s'
  end.

End ReSpec.

(** The sample number of the specification, and the texts after it that
    do not continue a run of the phone pattern's set [0-9 .\-\(\)]. *)
Module Sample.
Import PyStr Re ResumeParser.

Definition phone_sample : string := "+1 (555) 123-4567".

Definition ends_run (post : string) : bool :=
  match post with
  | EmptyString => true
  | String c _ => negb (in_set false phone_body c)
  end.

(** No match of the phone pattern starts in [text] before position [n]. *)
Definition no_match_before (n : nat) (text : string) : Prop :=
  forall i, i < n -> match_at false phone_pattern text i = None.

(** The last step of the phone pattern: one digit, then success. *)
Definition last_digit : cont :=
  fun st => mtch false (In [Range "0" "9"]) st Some.

(** The longest prefix of [s] made of characters of the set
    [0-9 .\-\(\)]. *)
Fixpoint body_run (s : string) : string :=
  match s with
  | EmptyString => EmptyString
  | String c s' =>
      if in_set false phone_body c then String c (body_run s') else EmptyString
  end.

(** The longest prefix of [s] that ends with a digit; empty when [s] has no
    digit. *)
Fixpoint upto_last_digit (s : string) : string :=
  match s with
  | EmptyString => EmptyString
  | String c s' =>
      match upto_last_digit s' with
      | EmptyString =>
          if in_set false [Range "0" "9"] c then String c EmptyString
          else EmptyString
      | String _ _ as longer => String c longer
      end
  end.

(** [s] has a decimal digit. *)
Definition has_digit (s : string) : bool :=
  existsb (in_set false [Range "0" "9"]) s.

End Sample.

(** Language models and texts used as concrete inputs. *)
Module Inputs.
Import PyStr ResumeParser.

(** A model that finds no entity, and one whose call raises. *)
Definition quiet_model : language_model := fun _ => Ok [].

Definition model_error : exn := Exception "language model failure".

Definition failing_model : language_model := fun _ => Raise model_error.

Definition nl : string := String newline "".

(** An all-caps first line followed by a labeled name. *)
Definition caps_then_label : string :=
  "JOHN MICHAEL SMITH" +:+ nl +:+ "Name: Jane Doe" +:+ nl.

(** The four category keys of the skills mapping. *)
Definition skill_categories : gset string :=
  {[ "technical"; "soft"; "languages"; "certifications" ]}.

End Inputs.

(** Further concrete inputs. *)
Module MoreInputs.
Import PyStr ResumeParser Inputs.

(** [c * n] *)
Fixpoint repeat_char (c : ascii) (n : nat) : string :=
  match n with
  | 0 => EmptyString
  | S n' => String c (repeat_char c n')
  end.

(** Two texts that differ only after the fifth line and the 2000th
    character. *)
Definition long_text (last_line : string) : string :=
  "a" +:+ nl +:+ "b" +:+ nl +:+ "c" +:+ nl +:+ "d" +:+ nl
  +:+ repeat_char "x" 2000 +:+ nl +:+ last_line.

(** A model that reports an organisation and three persons. *)
Definition entity_model : language_model :=
  fun _ => Ok [ {| ent_text := "Acme Corp"; label_ := "ORG" |};
                {| ent_text := "Jane"; label_ := "PERSON" |};
                {| ent_text := "Jane Doe"; label_ := "PERSON" |};
                {| ent_text := "John Smith"; label_ := "PERSON" |} ].

(** Uploads, environments and a fresh application state. *)
Definition word_upload : App.upload :=
  {| App.filename := "cv.docx"; App.content := Pages [Ok "curriculum vitae"] |}.

Definition pdf_upload : App.upload :=
  {| App.filename := "cv.PDF"; App.content := Pages [Ok "curriculum vitae"] |}.

Definition scanned_upload : App.upload :=
  {| App.filename := "scan.pdf"; App.content := Pages [Ok ""; Ok ""] |}.

Definition working_env (nlp : language_model) : App.environment :=
  {| App.filepath := "/tmp/7d_cv.PDF"; App.save := Ok tt;
     App.load_models := Ok nlp; App.remove := Ok tt |}.

Definition fresh : App.app_state := App.AppState None None [] ∅.

(** What reading the files of a body over [MAX_CONTENT_LENGTH] raises. *)
Definition too_large : exn := Exception "413 Request Entity Too Large".

End MoreInputs.

(** The shape of the strings the e-mail and phone patterns match. *)
Module Shapes.
Import PyStr Re ReSpec ResumeParser.

(** The sets [A-Za-z0-9._%+-], [A-Za-z0-9.-] and [A-Z|a-z] of the e-mail
    pattern. *)
Definition email_local : list item :=
  [Range "A" "Z"; Range "a" "z"; Range "0" "9";
   Lit "."; Lit "_"; Lit "%"; Lit "+"; Lit "-"].

Definition email_domain : list item :=
  [Range "A" "Z"; Range "a" "z"; Range "0" "9"; Lit "."; Lit "-"].

Definition email_tld : list item :=
  [Range "A" "Z"; Lit "|"; Range "a" "z"].

(** [within items lo w]: at least [lo] characters, all of the set. *)
Definition within (items : list item) (lo : nat) (w : string) : Prop :=
  all_chars (in_set false items) w = true /\ lo <= String.length w.

(** local [@] domain [.] tld *)
Definition email_shaped (m : string) : Prop :=
  exists local domain tld,
    m = local +:+ "@" +:+ domain +:+ "." +:+ tld
    /\ within email_local 1 local
    /\ within email_domain 1 domain
    /\ within email_tld 2 tld.

(** An optional [+] or [(], a digit from 1 to 9, at least eight characters
    of the set [0-9 .\-\(\)], and a last digit. *)
Definition phone_shaped (m : string) : Prop :=
  exists sign d body last,
    m = sign +:+ String d (body +:+ String last "")
    /\ (sign = "" \/ sign = "+" \/ sign = "(")
    /\ in_set false [Range "1" "9"] d = true
    /\ within phone_body 8 body
    /\ in_set false [Range "0" "9"] last = true.

(** Every set of the pattern only has characters that satisfy [p]. *)
Fixpoint sets_within (ic : bool) (p : ascii -> bool) (r : regex) : Prop :=
  match r with
  | In items => forall c, in_set ic items c = true -> p c = true
  | Seq r1 r2 => sets_within ic p r1 /\ sets_within ic p r2
  | Repeat _ _ r' => sets_within ic p r'
  | Group r' => sets_within ic p r'
  | AtStart | Boundary => True
  end.

(** A letter ([c.isupper()] or [c.islower()]) or a whitespace character. *)
Definition letter_or_space (c : ascii) : bool :=
  char_isupper c || char_islower c || isspace c.

End Shapes.

(* ------------------------------------------------------------------ *)
(** ** Facts about the string methods *)
(* ------------------------------------------------------------------ *)

Module PyStrFacts.
Import PyStr.

Lemma str_app_assoc (a b c : string) : (a +:+ b) +:+ c = a +:+ (b +:+ c).
Proof. induction a as [|x a IH]; simpl; [reflexivity | now rewrite IH]. Qed.

Lemma str_app_nil_r (a : string) : a +:+ "" = a.
Proof. induction a as [|x a IH]; simpl; [reflexivity | now rewrite IH]. Qed.

Lemma str_length_app (a b : string) :
  String.length (a +:+ b) = String.length a + String.length b.
Proof. induction a as [|x a IH]; simpl; [reflexivity | now rewrite IH]. Qed.

Lemma str_drop_app (a b : string) : drop (String.length a) (a +:+ b) = b.
Proof. induction a as [|x a IH]; simpl; [now destruct b | exact IH]. Qed.

Lemma str_take_app (a b : string) : take (String.length a) (a +:+ b) = a.
Proof. induction a as [|x a IH]; simpl; [reflexivity | now rewrite IH]. Qed.

Lemma str_take_app_plus (a b : string) (n : nat) :
  take (String.length a + n) (a +:+ b) = a +:+ take n b.
Proof. induction a as [|x a IH]; simpl; [reflexivity | now rewrite IH]. Qed.

Lemma str_drop_0 (s : string) : drop 0 s = s.
Proof. now destruct s. Qed.

Lemma str_drop_drop (n m : nat) (s : string) : drop n (drop m s) = drop (m + n) s.
Proof.
  revert s; induction m as [|m IH]; intros s; simpl.
  - now rewrite ?str_drop_0.
  - destruct s as [|c s]; [now destruct n | apply IH].
Qed.

(** [s.split(sep)] always has a first element. *)
Lemma split_on_cons (sep : ascii) (s : string) :
  exists h t, split_on sep s = h :: t.
Proof.
  induction s as [|c s [h [t IH]]]; simpl; [eauto |].
  destruct (Ascii.eqb c sep); [eauto |]. rewrite IH; eauto.
Qed.

(** A string with a cased character is not empty. *)
Lemma isupper_nonempty (s : string) : isupper s = true -> s <> "".
Proof. now destruct s. Qed.

Lemma split_nonempty (s : string) : 1 <= length (split s) -> s <> "".
Proof. destruct s; simpl; [lia | discriminate]. Qed.

End PyStrFacts.

(* ------------------------------------------------------------------ *)
(** ** Facts about the matcher *)
(* ------------------------------------------------------------------ *)

Module ReFacts.
Import PyStr Re ReSpec PyStrFacts.

Lemma reach_refl (st : state) : reach "" st st.
Proof. split; simpl; [reflexivity | lia]. Qed.

Lemma reach_trans (w1 w2 : string) (a b c : state) :
  reach w1 a b -> reach w2 b c -> reach (w1 +:+ w2) a c.
Proof.
  intros [R1 P1] [R2 P2]; split.
  - now rewrite R1, R2, str_app_assoc.
  - rewrite str_length_app; lia.
Qed.

Section Soundness.
Variable ic : bool.

Lemma repeat_loop_sound (r : regex) (body : state -> cont -> option state) :
  sound (lang ic r) body ->
  forall fuel lo hi,
    sound (lang ic (Repeat lo hi r)) (fun st k => repeat_loop body fuel lo hi st k).
Proof.
  intros Hbody fuel.
  assert (Hstop : forall lo hi st (k : cont) res,
             match lo with 0 => k st | S _ => None end = Some res ->
             exists w st', lang ic (Repeat lo hi r) w /\ reach w st st'
                           /\ k st' = Some res).
  { intros [|lo] hi st k res H; [|discriminate].
    exists "", st; repeat split; auto using lang_Repeat_stop, reach_refl. }
  induction fuel as [|fuel IH]; intros lo hi st k res H; simpl in H.
  - now apply Hstop.
  - destruct (may_repeat hi) eqn:Hmay; [|now apply Hstop].
    destruct (body st _) as [res'|] eqn:Hb; [|now apply Hstop].
    injection H as ->.
    apply Hbody in Hb as (w1 & st1 & Hw1 & Hr1 & Hk).
    destruct (pos st <? pos st1); [|discriminate].
    apply IH in Hk as (w2 & st2 & Hw2 & Hr2 & Hk).
    exists (w1 +:+ w2), st2; repeat split; eauto using lang_Repeat_more.
    + destruct Hr1 as [-> _], Hr2 as [-> _]. now rewrite str_app_assoc.
    + destruct Hr1 as [_ P1], Hr2 as [_ P2]. rewrite str_length_app; lia.
Qed.

(** Soundness of the matcher: a successful match consumed a string of
    the pattern's language and passed what is left to the continuation. *)
Lemma mtch_sound (r : regex) : sound (lang ic r) (mtch ic r).
Proof.
  induction r as [items | r1 IH1 r2 IH2 | lo hi r IH | r IH | | ];
    intros st k res H; simpl in H.
  - destruct st as [p i s g]; simpl in *.
    destruct s as [|c s]; [discriminate|].
    destruct (in_set ic items c) eqn:Hc; [|discriminate].
    eexists (String c ""), _; repeat split; [now constructor | | | exact H];
      simpl; [reflexivity | lia].
  - apply IH1 in H as (w1 & st1 & Hw1 & Hr1 & H).
    apply IH2 in H as (w2 & st2 & Hw2 & Hr2 & H).
    exists (w1 +:+ w2), st2; repeat split;
      eauto using lang_Seq; eapply reach_trans; eauto.
  - now apply (repeat_loop_sound r (mtch ic r) IH) in H.
  - apply IH in H as (w & st1 & Hw & Hr & H).
    eexists w, _; repeat split; [now constructor | | | exact H];
      simpl; apply Hr.
  - destruct (pos st =? 0); [|discriminate].
    exists "", st; repeat split; auto using lang_AtStart; simpl; lia.
  - destruct (xorb _ _); [|discriminate].
    exists "", st; repeat split; auto using lang_Boundary; simpl; lia.
Qed.

(** On a one-character set the repetition loop is [greedy]. *)
Lemma repeat_loop_In (items : list item) (k : cont) (g : option (nat * nat)) :
  forall s fuel lo hi p i,
    String.length s <= fuel ->
    repeat_loop (mtch ic (In items)) fuel lo hi (State p i s g) k
    = greedy ic items lo hi p i s g k.
Proof.
  induction s as [|c s IH]; intros fuel lo hi p i Hfuel.
  - destruct fuel; simpl; [reflexivity|]. now destruct (may_repeat hi).
  - destruct fuel as [|fuel]; simpl in Hfuel; [lia|].
    cbn [repeat_loop greedy mtch rest pos group1].
    destruct (may_repeat hi); [|reflexivity].
    destruct (in_set ic items c); [|reflexivity].
    cbn [andb].
    replace (i <? S i) with true by (symmetry; apply Nat.ltb_lt; lia).
    rewrite IH by lia. reflexivity.
Qed.

End Soundness.

(** *** The fuel of the repetition loop *)

(** The matcher only looks at its continuation on states it can reach. *)
Lemma repeat_loop_ext (body : state -> cont -> option state) :
  (forall st k1 k2,
     (forall w st', reach w st st' -> k1 st' = k2 st') ->
     body st k1 = body st k2) ->
  forall fuel lo hi st k1 k2,
    (forall w st', reach w st st' -> k1 st' = k2 st') ->
    repeat_loop body fuel lo hi st k1 = repeat_loop body fuel lo hi st k2.
Proof.
  intros Hext.
  induction fuel as [|fuel IH]; intros lo hi st k1 k2 Hk; simpl;
    rewrite (Hk "" st (reach_refl st)); [reflexivity|].
  destruct (may_repeat hi); [|reflexivity].
  match goal with
  | |- match body st ?f1 with _ => _ end = match body st ?f2 with _ => _ end =>
      assert (E : body st f1 = body st f2); [|now rewrite E]
  end.
  apply Hext. intros w st' Hr. destruct (pos st <? pos st'); [|reflexivity].
  apply IH. intros w' st'' Hr'. eapply Hk, reach_trans; eauto.
Qed.

Lemma mtch_ext ic (r : regex) :
  forall st k1 k2,
    (forall w st', reach w st st' -> k1 st' = k2 st') ->
    mtch ic r st k1 = mtch ic r st k2.
Proof.
  induction r as [items | r1 IH1 r2 IH2 | lo hi r IH | r IH | | ];
    intros st k1 k2 Hk; simpl.
  - destruct st as [p i s g]; simpl. destruct s as [|c s]; [reflexivity|].
    destruct (in_set ic items c); [|reflexivity].
    apply (Hk (String c "")). split; simpl; [reflexivity | lia].
  - apply IH1. intros w st' Hr. apply IH2. intros w' st'' Hr'.
    eapply Hk, reach_trans; eauto.
  - apply repeat_loop_ext; [exact IH | exact Hk].
  - apply IH. intros w st' Hr. apply (Hk w). exact Hr.
  - destruct (pos st =? 0); [|reflexivity]. apply (Hk ""), reach_refl.
  - destruct (xorb _ _); [|reflexivity]. apply (Hk ""), reach_refl.
Qed.

(** An iteration that moves the cursor shortens the rest of the text. *)
Lemma reach_shorter w st st' :
  reach w st st' -> pos st < pos st' ->
  String.length (rest st') < String.length (rest st).
Proof. intros [-> Hp] Hlt. rewrite str_length_app. lia. Qed.

(** The loop is given the number of characters left; any larger amount of
    fuel gives the same result. *)
Lemma repeat_loop_fuel ic (r : regex) :
  forall fuel fuel' lo hi st k,
    String.length (rest st) <= fuel ->
    String.length (rest st) <= fuel' ->
    repeat_loop (mtch ic r) fuel lo hi st k
    = repeat_loop (mtch ic r) fuel' lo hi st k.
Proof.
  assert (Hend : forall fuel lo hi st (k : cont),
             String.length (rest st) = 0 ->
             repeat_loop (mtch ic r) fuel lo hi st k
             = match lo with 0 => k st | S _ => None end).
  { intros [|fuel] lo hi st k Hlen; simpl; [reflexivity|].
    destruct (may_repeat hi); [|reflexivity].
    destruct (mtch ic r st _) as [res|] eqn:Hb; [|reflexivity].
    apply mtch_sound in Hb as (w & st' & _ & Hr & Hb).
    destruct (pos st <? pos st') eqn:Hlt; [|discriminate].
    apply Nat.ltb_lt in Hlt. apply (reach_shorter _ _ _ Hr) in Hlt. lia. }
  induction fuel as [|fuel IH]; intros fuel' lo hi st k Hf Hf'.
  - rewrite !Hend by lia. reflexivity.
  - destruct fuel' as [|fuel']; [rewrite !Hend by lia; reflexivity|].
    simpl. destruct (may_repeat hi); [|reflexivity].
    match goal with
    | |- match mtch ic r st ?f1 with _ => _ end
         = match mtch ic r st ?f2 with _ => _ end =>
        assert (E : mtch ic r st f1 = mtch ic r st f2); [|now rewrite E]
    end.
    apply mtch_ext.
    intros w st' Hr. destruct (pos st <? pos st') eqn:Hlt; [|reflexivity].
    apply Nat.ltb_lt in Hlt. apply (reach_shorter _ _ _ Hr) in Hlt.
    apply IH; lia.
Qed.

(** *** Equations used to run the matcher on a partly known text *)

Lemma mtch_In_cons ic items p i c s g (k : cont) :
  mtch ic (In items) (State p i (String c s) g) k
  = if in_set ic items c then k (State (Some c) (S i) s g) else None.
Proof. reflexivity. Qed.

Lemma mtch_Seq ic r1 r2 st (k : cont) :
  mtch ic (Seq r1 r2) st k = mtch ic r1 st (fun st' => mtch ic r2 st' k).
Proof. reflexivity. Qed.

Lemma mtch_Repeat_In ic lo hi items p i s g (k : cont) :
  mtch ic (Repeat lo hi (In items)) (State p i s g) k
  = greedy ic items lo hi p i s g k.
Proof. simpl. now apply repeat_loop_In. Qed.

Lemma greedy_cons ic items lo hi p i c s g (k : cont) :
  greedy ic items lo hi p i (String c s) g k
  = if may_repeat hi && in_set ic items c
    then match greedy ic items (Nat.pred lo) (dec_hi hi) (Some c) (S i) s g k with
         | Some res => Some res
         | None => match lo with 0 => k (State p i (String c s) g) | S _ => None end
         end
    else match lo with 0 => k (State p i (String c s) g) | S _ => None end.
Proof. reflexivity. Qed.

(** *** Greedy repetition *)

(** The characters of a run of the set are taken first: what the loop
    finds after the run is the answer. *)
Lemma greedy_run ic items g (k : cont) res :
  forall w lo p i s,
    all_chars (in_set ic items) w = true ->
    greedy ic items (lo - String.length w) None
      (match w with "" => p | _ => String.get (String.length w - 1) w end)
      (i + String.length w) s g k = Some res ->
    greedy ic items lo None p i (w +:+ s) g k = Some res.
Proof.
  induction w as [|c w IH]; intros lo p i s Hw H.
  - simpl in *. now rewrite Nat.sub_0_r, Nat.add_0_r in H.
  - simpl in Hw. apply andb_prop in Hw as [Hc Hw].
    change (String c w +:+ s) with (String c (w +:+ s)).
    rewrite greedy_cons, Hc. cbn [may_repeat andb dec_hi].
    rewrite (IH (Nat.pred lo) (Some c) (S i) s Hw); [reflexivity|].
    replace (Nat.pred lo - String.length w) with (lo - String.length (String c w))
      by (simpl; lia).
    replace (S i + String.length w) with (i + String.length (String c w))
      by (simpl; lia).
    destruct w as [|c' w]; [exact H|].
    cbn [String.length] in *.
    replace (S (S (String.length w)) - 1) with (S (String.length w - 0)) in H
      by lia.
    replace (S (String.length w) - 1) with (String.length w - 0) by lia.
    exact H.
Qed.

(** What a successful loop consumed. *)
Lemma greedy_inv ic items g (k : cont) res :
  forall s lo hi p i,
    greedy ic items lo hi p i s g k = Some res ->
    exists w s' p',
      s = w +:+ s' /\ lo <= String.length w
      /\ all_chars (in_set ic items) w = true
      /\ k (State p' (i + String.length w) s' g) = Some res.
Proof.
  assert (Hstop : forall lo p i s,
             match lo with 0 => k (State p i s g) | S _ => None end = Some res ->
             exists w s' p',
               s = w +:+ s' /\ lo <= String.length w
               /\ all_chars (in_set ic items) w = true
               /\ k (State p' (i + String.length w) s' g) = Some res).
  { intros [|lo] p i s H; [|discriminate].
    exists "", s, p; simpl; rewrite Nat.add_0_r; auto. }
  induction s as [|c s IH]; intros lo hi p i H.
  - now apply Hstop in H.
  - rewrite greedy_cons in H.
    destruct (may_repeat hi && in_set ic items c) eqn:Hc; [|now apply Hstop in H].
    destruct (greedy ic items (Nat.pred lo) (dec_hi hi) (Some c) (S i) s g k)
      as [res'|] eqn:Hrec; [|now apply Hstop in H].
    injection H as ->. apply andb_prop in Hc as [_ Hc].
    apply IH in Hrec as (w & s' & p' & -> & Hlo & Hw & Hk).
    exists (String c w), s', p'; simpl; rewrite Hc, Hw; repeat split; [lia|].
    now replace (i + S (String.length w)) with (S i + String.length w) by lia.
Qed.

(** *** Searching *)

(** A match anchored at [i] is a string of the language, found at [i]. *)
Lemma match_at_sound ic r text i st :
  match_at ic r text i = Some st ->
  exists w, lang ic r w /\ drop i text = w +:+ rest st
            /\ pos st = i + String.length w.
Proof.
  intros H. apply mtch_sound in H as (w & st' & Hw & [Hr Hp] & [= <-]).
  exists w; auto.
Qed.

Lemma search_loop_inv ic r text st s :
  forall n i,
    search_loop ic r text n i = Some (s, st) ->
    i <= s < i + n /\ match_at ic r text s = Some st
    /\ forall j, i <= j < s -> match_at ic r text j = None.
Proof.
  induction n as [|n IH]; intros i H; simpl in H; [discriminate|].
  destruct (match_at ic r text i) as [st'|] eqn:Hi.
  - injection H as <- <-. repeat split; [lia | lia | exact Hi | intros; lia].
  - apply IH in H as (Hs & Hm & Hnone). repeat split; [lia | lia | exact Hm |].
    intros j Hj. destruct (decide (j = i)) as [->|]; [exact Hi|].
    apply Hnone; lia.
Qed.

Lemma search_loop_first ic r text st s :
  forall n i,
    i <= s < i + n ->
    (forall j, i <= j < s -> match_at ic r text j = None) ->
    match_at ic r text s = Some st ->
    search_loop ic r text n i = Some (s, st).
Proof.
  induction n as [|n IH]; intros i Hs Hnone Hm; [lia|]. simpl.
  destruct (decide (i = s)) as [->|Hne]; [now rewrite Hm|].
  rewrite Hnone by lia. apply IH; [lia | intros; apply Hnone; lia | exact Hm].
Qed.

Lemma search_loop_some ic r text st s :
  forall n i,
    i <= s < i + n ->
    match_at ic r text s = Some st ->
    exists s' st', search_loop ic r text n i = Some (s', st').
Proof.
  induction n as [|n IH]; intros i Hs Hm; [lia|]. simpl.
  destruct (match_at ic r text i) eqn:Hi; [eauto|].
  apply IH; [|exact Hm].
  destruct (decide (i = s)) as [->|]; [congruence | lia].
Qed.

(** The first element of [findall] is the match [search] finds. *)
Lemma findall_search ic r text :
  findall ic r text
  = match search ic r text with
    | None => []
    | Some m =>
        group0 text m
        :: findall_loop ic r text (String.length text)
             (if fst m <? pos (snd m) then pos (snd m) else S (pos (snd m)))
    end.
Proof.
  unfold findall, search. cbn [findall_loop].
  rewrite Nat.sub_0_r.
  now destruct (search_loop ic r text (S (String.length text)) 0) as [[s st]|].
Qed.

(** The text of a match is the string the matcher consumed. *)
Lemma group0_sound ic r text s st :
  match_at ic r text s = Some st ->
  exists w, lang ic r w /\ group0 text (s, st) = w
            /\ drop s text = w +:+ rest st.
Proof.
  intros H. apply match_at_sound in H as (w & Hw & Hd & Hp).
  exists w; repeat split; auto.
  unfold group0, substr; simpl. rewrite Hp, Hd.
  replace (s + String.length w - s) with (String.length w) by lia.
  apply str_take_app.
Qed.

(** *** The capturing group *)

Lemma anchored_start_at text i : anchored text (start_at text i).
Proof. reflexivity. Qed.

Lemma anchored_reach text w st st' :
  anchored text st -> reach w st st' -> anchored text st'.
Proof.
  unfold anchored. intros Ha [Hr Hp]. rewrite Hp, <- str_drop_drop, <- Ha, Hr.
  symmetry. apply str_drop_app.
Qed.

(** A pattern without the group leaves the recorded span alone. *)
Lemma repeat_loop_keeps_group (body : state -> cont -> option state) :
  (forall st k res, body st k = Some res ->
     exists st', group1 st' = group1 st /\ k st' = Some res) ->
  forall fuel lo hi st k res,
    repeat_loop body fuel lo hi st k = Some res ->
    exists st', group1 st' = group1 st /\ k st' = Some res.
Proof.
  intros Hbody.
  assert (Hstop : forall lo st (k : cont) res,
             match lo with 0 => k st | S _ => None end = Some res ->
             exists st', group1 st' = group1 st /\ k st' = Some res).
  { intros [|lo] st k res H; [eauto | discriminate]. }
  induction fuel as [|fuel IH]; intros lo hi st k res H; simpl in H.
  - now apply Hstop in H.
  - destruct (may_repeat hi); [|now apply Hstop in H].
    destruct (body st _) as [res'|] eqn:Hb; [|now apply Hstop in H].
    injection H as ->. apply Hbody in Hb as (st1 & Hg1 & Hk).
    destruct (pos st <? pos st1); [|discriminate].
    apply IH in Hk as (st2 & Hg2 & Hk).
    exists st2. split; [congruence | exact Hk].
Qed.

Lemma mtch_keeps_group ic (r : regex) :
  has_group r = false ->
  forall st k res, mtch ic r st k = Some res ->
    exists st', group1 st' = group1 st /\ k st' = Some res.
Proof.
  induction r as [items | r1 IH1 r2 IH2 | lo hi r IH | r IH | | ];
    intros Hg st k res H; simpl in Hg, H.
  - destruct (rest st) as [|c s]; [discriminate|].
    destruct (in_set ic items c); [|discriminate].
    eexists; split; [|exact H]. reflexivity.
  - apply orb_false_elim in Hg as [Hg1 Hg2].
    apply (IH1 Hg1) in H as (st1 & E1 & H).
    apply (IH2 Hg2) in H as (st2 & E2 & H).
    exists st2. split; [congruence | exact H].
  - now apply (repeat_loop_keeps_group (mtch ic r) (IH Hg)) in H.
  - discriminate.
  - destruct (pos st =? 0); [eauto | discriminate].
  - destruct (xorb _ _); [eauto | discriminate].
Qed.

(** The group records the span of what its body consumed. *)
Lemma mtch_Group ic (r : regex) st (k : cont) res :
  mtch ic (Group r) st k = Some res ->
  exists w st', lang ic r w /\ reach w st st'
    /\ k (State (prev st') (pos st') (rest st') (Some (pos st, pos st')))
       = Some res.
Proof.
  intros H. simpl in H. now apply mtch_sound in H.
Qed.

(** In a text the state is anchored in, that span is the consumed string. *)
Lemma substr_reach text w st st' :
  anchored text st -> reach w st st' -> substr text (pos st) (pos st') = w.
Proof.
  unfold anchored, substr. intros Ha [Hr Hp]. rewrite <- Ha, Hr, Hp.
  replace (pos st + String.length w - pos st) with (String.length w) by lia.
  apply str_take_app.
Qed.

End ReFacts.

(* ------------------------------------------------------------------ *)
(** ** The phone pattern on the sample number *)
(* ------------------------------------------------------------------ *)

Module PhoneFacts.
Import PyStr Re ReSpec PyStrFacts ReFacts ResumeParser Sample.

(** Decide the membership of a known character in a known set. *)
Ltac run_set :=
  repeat match goal with
  | |- context [in_set ?ic ?items ?c] =>
      let b := eval vm_compute in (in_set ic items c) in
      lazymatch b with
      | true => change (in_set ic items c) with true
      | false => change (in_set ic items c) with false
      end
  end.

(** After ["+1"], the loop over the set runs through the sample and into
    what follows; the match ends at the last digit it can reach. *)
Lemma phone_tail p i post g :
  greedy false phone_body 8 None p i (" (555) 123-4567" +:+ post) g last_digit
  = Some match greedy false phone_body 0 None (Some "7"%char) (i + 15) post g
                 last_digit with
         | Some res => res
         | None => State (Some "7"%char) (i + 15) post g
         end.
Proof.
  change (" (555) 123-4567" +:+ post)
    with (" (555) 123-456" +:+ String "7" post).
  apply greedy_run; [reflexivity|].
  change (8 - String.length " (555) 123-456") with 0.
  change (String.length " (555) 123-456") with 14.
  cbn [String.get Nat.sub].
  rewrite greedy_cons. run_set. cbn [may_repeat andb dec_hi Nat.pred].
  replace (S (i + 14)) with (i + 15) by lia.
  destruct (greedy false phone_body 0 None (Some "7"%char) (i + 15) post g
              last_digit) as [res|]; [reflexivity|].
  unfold last_digit at 1. rewrite mtch_In_cons. run_set.
  now replace (S (i + 14)) with (i + 15) by lia.
Qed.

(** The phone pattern anchored at the sample always matches. *)
Lemma phone_at_sample p i post g :
  mtch false phone_pattern (State p i (phone_sample +:+ post) g) Some
  = Some match greedy false phone_body 0 None (Some "7"%char) (i + 17) post g
                 last_digit with
         | Some res => res
         | None => State (Some "7"%char) (i + 17) post g
         end.
Proof.
  unfold phone_pattern, Opt, AtLeast.
  change (phone_sample +:+ post)
    with (String "+" (String "1" (" (555) 123-4567" +:+ post))).
  rewrite mtch_Seq, mtch_Repeat_In, greedy_cons. run_set.
  cbn [may_repeat andb dec_hi Nat.pred].
  rewrite greedy_cons. cbn [may_repeat andb].
  rewrite mtch_Seq, mtch_In_cons. run_set.
  rewrite mtch_Seq, mtch_Repeat_In.
  fold last_digit. rewrite phone_tail.
  now replace (S (S i) + 15) with (i + 17) by lia.
Qed.

End PhoneFacts.

(* ------------------------------------------------------------------ *)
(** ** The orchestrator *)
(* ------------------------------------------------------------------ *)

Import PyStr Re ReSpec PyStrFacts ReFacts ResumeParser Sample Inputs PhoneFacts.

Lemma dom_extract_skills (text : string) :
  dom (extract_skills text) = skill_categories.
Proof.
  unfold extract_skills, skill_categories.
  rewrite !dom_insert_L, dom_empty_L. set_solver.
Qed.

Lemma dom_empty_skills : dom (skills get_empty_resume_structure) = skill_categories.
Proof.
  unfold get_empty_resume_structure, skill_categories; cbn [skills].
  rewrite !dom_insert_L, dom_empty_L. set_solver.
Qed.

Lemma lookup_empty_skills (key : string) :
  skills get_empty_resume_structure !! key
  = if decide (key ∈ skill_categories) then Some [] else None.
Proof.
  destruct (decide (key ∈ skill_categories)) as [Hin|Hout].
  - unfold skill_categories in Hin.
    rewrite !elem_of_union, !elem_of_singleton in Hin.
    destruct Hin as [[[->| ->]| ->]| ->]; reflexivity.
  - apply not_elem_of_dom. now rewrite dom_empty_skills.
Qed.

(** [if not text] holds for [None] and for the empty string only. *)
Lemma parse_text (nlp : language_model) (file : pdf) (text : string) :
  extract_text_from_pdf file = Some text -> text <> "" ->
  parse nlp file
  = (extracted_name <- extract_name nlp text ;;
     Ok {| personal_info :=
             {| name := extracted_name;
                email := extract_email text;
                phone := extract_phone_number text;
                address := "Bengaluru, India" |};
           education := extract_education text;
           skills := extract_skills text;
           work_experience := extract_experience text |}).
Proof.
  intros Htext Hne. unfold parse. rewrite Htext.
  destruct text; [contradiction | reflexivity].
Qed.

Lemma parse_no_text (nlp : language_model) (file : pdf) :
  extract_text_from_pdf file = None \/ extract_text_from_pdf file = Some "" ->
  parse nlp file = Ok get_empty_resume_structure.
Proof. intros [H|H]; unfold parse; now rewrite H. Qed.

(** C1: when text extraction gives no text (it failed, or the text is
    empty), [parse] returns the canonical empty record: the four strings of
    [personal_info] are empty, [education] and [work_experience] are empty
    lists, and [skills] maps each of the four category keys, and nothing
    else, to the empty list. *)
Theorem parse_without_text (nlp : language_model) (file : pdf) :
  extract_text_from_pdf file = None \/ extract_text_from_pdf file = Some "" ->
  parse nlp file = Ok get_empty_resume_structure
  /\ personal_info get_empty_resume_structure
     = {| name := ""; email := ""; phone := ""; address := "" |}
  /\ education get_empty_resume_structure = []
  /\ (forall key, skills get_empty_resume_structure !! key
                  = if decide (key ∈ skill_categories) then Some [] else None)
  /\ work_experience get_empty_resume_structure = [].
Proof.
  intros H. repeat split; auto using parse_no_text, lookup_empty_skills.
Qed.

Lemma parse_without_text_witness :
  parse quiet_model (Pages [Ok "CV"; Raise model_error])
  = Ok get_empty_resume_structure.
Proof.
  exact (proj1 (parse_without_text quiet_model
                  (Pages [Ok "CV"; Raise model_error]) (or_introl eq_refl))).
Defined.

(** C2, as the code has it: [parse] has no handler around the field
    extractors.  On a document with text, a failure of the Name Extractor
    (its language-model call is the only step of a field extractor that can
    raise) leaves [parse] with that same exception and no record; when it
    does not fail, the record holds each extractor's own value. *)
Theorem parse_propagates_extractor_failure
    (nlp : language_model) (file : pdf) (text : string) :
  extract_text_from_pdf file = Some text -> text <> "" ->
  (forall e, extract_name nlp text = Raise e -> parse nlp file = Raise e)
  /\ (forall n, extract_name nlp text = Ok n ->
      parse nlp file
      = Ok {| personal_info :=
                {| name := n;
                   email := extract_email text;
                   phone := extract_phone_number text;
                   address := "Bengaluru, India" |};
              education := extract_education text;
              skills := extract_skills text;
              work_experience := extract_experience text |}).
Proof.
  intros Htext Hne. rewrite (parse_text nlp file text Htext Hne).
  split; intros x Hx; now rewrite Hx.
Qed.

Lemma parse_propagates_extractor_failure_witness :
  parse failing_model (Pages [Ok "curriculum"; Ok " vitae"]) = Raise model_error.
Proof.
  refine (proj1 (parse_propagates_extractor_failure failing_model
                   (Pages [Ok "curriculum"; Ok " vitae"]) "curriculum vitae"
                   eq_refl _) model_error eq_refl).
  discriminate.
Defined.

(** C2, counterexample to the claim as stated: with a language model whose
    call raises, the Name Extractor fails on the text ["curriculum vitae"]
    and [parse] raises too; it returns no record at all. *)
Lemma parse_aborts_on_extractor_failure :
  extract_name failing_model "curriculum vitae" = Raise model_error
  /\ parse failing_model (Pages [Ok "curriculum vitae"]) = Raise model_error
  /\ ~ exists r, parse failing_model (Pages [Ok "curriculum vitae"]) = Ok r.
Proof.
  assert (H : parse failing_model (Pages [Ok "curriculum vitae"])
              = Raise model_error) by (vm_compute; reflexivity).
  split; [vm_compute; reflexivity | split; [exact H|]].
  intros [r Hr]. rewrite H in Hr. discriminate.
Qed.

(** C8, as the code has it: the address of the record [parse] returns is
    the empty string only on the empty-structure path; for every document
    that yields text it is the constant ["Bengaluru, India"]. *)
Theorem address_of_parsed_record
    (nlp : language_model) (file : pdf) (r : ResumeRecord) :
  parse nlp file = Ok r ->
  address (personal_info r)
  = match extract_text_from_pdf file with
    | None | Some EmptyString => ""
    | Some _ => "Bengaluru, India"
    end.
Proof.
  unfold parse. destruct (extract_text_from_pdf file) as [[|c text]|].
  - now intros [= <-].
  - destruct (extract_name nlp (String c text)); simpl; [|discriminate].
    now intros [= <-].
  - now intros [= <-].
Qed.

Lemma address_of_parsed_record_witness :
  address (personal_info get_empty_resume_structure) = ""
  /\ exists r, parse quiet_model (Pages [Ok "curriculum vitae"]) = Ok r
               /\ address (personal_info r) = "Bengaluru, India".
Proof.
  split.
  - exact (address_of_parsed_record quiet_model (Unreadable model_error)
             get_empty_resume_structure eq_refl).
  - eexists. split; [vm_compute; reflexivity|].
    refine (address_of_parsed_record quiet_model
              (Pages [Ok "curriculum vitae"]) _ _).
    vm_compute; reflexivity.
Defined.

(** C8, counterexample to the claim as stated: a one-page document with the
    text ["curriculum vitae"], which holds no address, is parsed into a
    record whose address is not the empty string. *)
Lemma address_not_empty_on_text :
  exists r, parse quiet_model (Pages [Ok "curriculum vitae"]) = Ok r
            /\ address (personal_info r) = "Bengaluru, India"
            /\ address (personal_info r) <> "".
Proof.
  eexists; split; [vm_compute; reflexivity|]. split; [reflexivity | discriminate].
Qed.

(** C9: every record [parse] returns, on the success path and on the
    empty-structure path alike, has a skills mapping whose key set is
    exactly technical, soft, languages, certifications; so have the two
    mappings the record can take it from. *)
Theorem skills_keys_of_parsed_record
    (nlp : language_model) (file : pdf) (r : ResumeRecord) :
  parse nlp file = Ok r ->
  dom (skills r) = skill_categories
  /\ (forall key, is_Some (skills r !! key) <-> key ∈ skill_categories).
Proof.
  intros H.
  assert (Hdom : dom (skills r) = skill_categories).
  { unfold parse in H. destruct (extract_text_from_pdf file) as [[|c text]|].
    - injection H as <-. apply dom_empty_skills.
    - destruct (extract_name nlp (String c text)); simpl in H; [|discriminate].
      injection H as <-. apply dom_extract_skills.
    - injection H as <-. apply dom_empty_skills. }
  split; [exact Hdom|]. intros key. now rewrite <- Hdom, elem_of_dom.
Qed.

Lemma skills_keys_of_parsed_record_witness :
  exists r, parse quiet_model (Pages [Ok "curriculum vitae"]) = Ok r
            /\ dom (skills r) = skill_categories.
Proof.
  eexists. split; [vm_compute; reflexivity|].
  refine (proj1 (skills_keys_of_parsed_record quiet_model
                   (Pages [Ok "curriculum vitae"]) _ _)).
  vm_compute; reflexivity.
Defined.

(** C6: the Education, Skills and Experience extractors do not look at
    the text: on any two texts each returns the same value, and that value
    is its fixed pre-populated structure, spelled out here: the three
    education entries, the four skill categories with their skills, and
    the two experience entries with their responsibilities. *)
Theorem static_extractors_ignore_text (t1 t2 : string) :
  extract_education t1 = extract_education t2
  /\ extract_skills t1 = extract_skills t2
  /\ extract_experience t1 = extract_experience t2
  /\ length (extract_education t1) = 3
  /\ dom (extract_skills t1) = skill_categories
  /\ length (extract_experience t1) = 2
  /\ extract_education t1
     = [ {| degree := "Bachelor of Engineering";
            institution := "Artificial Intelligence & Machine Learning";
            year := "2026";
            gpa := None;
            details := Some ["Expected in 06/2026"] |};
         {| degree := "Ramaiah Institute of Technology";
            institution := "Bengaluru, India";
            year := "";
            gpa := None;
            details := None |};
         {| degree := "Diploma";
            institution := "Electrical & Electronics Engineering";
            year := "2023";
            gpa := Some "8.32 gpa";
            details := Some ["8.32 GPA/CGPA"] |} ]
  /\ extract_skills t1 !! "technical"
     = Some ["Artificial Intelligence"; "Automation"; "Data Analysis";
             "Engineering"; "Machine Learning"; "Software";
             "Various Software Programs"]
  /\ extract_skills t1 !! "soft"
     = Some ["Communication"; "Effective Communication"; "Teamwork";
             "Problem Solving"; "Quick Learner"]
  /\ extract_skills t1 !! "languages" = Some ["Hindi"; "Kannada"; "English"]
  /\ extract_skills t1 !! "certifications"
     = Some ["Industrial Automation Training"]
  /\ extract_experience t1
     = [ {| title := "Mechanic Technician";
            company := "Shivam Sports - Belgaum, India";
            duration := "02/2022 - 03/2022";
            responsibilities :=
              ["Enhanced customer satisfaction by providing timely and accurate repairs on a wide range of vehicles.";
               "Improved vehicle performance by conducting thorough inspections and diagnostic tests.";
               "Increased efficiency by proficiently managing multiple repair projects simultaneously.";
               "Supported a positive customer experience by providing follow-up services such as test drives and post-repair consultations."] |};
         {| title := "Intern";
            company := "Government Tool Room & Training Center - Belgaum, India";
            duration := "02/2023 - 06/2023";
            responsibilities :=
              ["Gained valuable experience working within a specific industry, applying learned concepts directly into relevant work situations.";
               "Gained hands-on experience in various software programs, increasing proficiency and expanding technical skill set.";
               "Analyzed problems and worked with teams to develop solutions.";
               "Participated in workshops and presentations related to projects to gain knowledge."] |} ].
Proof.
  repeat split; auto using dom_extract_skills.
Qed.

(* ------------------------------------------------------------------ *)
(** ** The Name Extractor *)
(* ------------------------------------------------------------------ *)

(** The first of the lines visited is the first line of the text. *)
Lemma first_five_lines (text : string) :
  exists more,
    firstn 5 (split_on newline text)
    = List.hd "" (split_on newline text) :: more.
Proof.
  destruct (split_on_cons newline text) as (h & t & ->). simpl. eauto.
Qed.

Lemma first_line_Some (qualifies : string -> bool) (lines : list string) line :
  first_line qualifies lines = Some line -> qualifies line = true.
Proof.
  induction lines as [|l ls IH]; simpl; [discriminate|].
  destruct (qualifies (strip l)) eqn:Hq; [|exact IH]. now intros [= <-].
Qed.

(** A name of two or three capitalized words is not empty. *)
Lemma name_words_nonempty ic (w : string) : lang ic name_words w -> w <> "".
Proof.
  unfold name_words. intros H.
  inversion H as [| r1 r2 w1 w2 H1 H2 | | | | |]; subst.
  inversion H1; subst. discriminate.
Qed.

(** Step over the next element of a sequence, keeping the cursor anchored. *)
Ltac peel H Ha :=
  rewrite mtch_Seq in H;
  let w := fresh "w" in
  let st := fresh "st" in
  let Hr := fresh "Hr" in
  apply mtch_sound in H as (w & st & _ & Hr & H);
  apply (anchored_reach _ _ _ _ Ha) in Hr; clear Ha; rename Hr into Ha.

(** Group 1 takes part in every match of the labeled pattern, and holds a
    name of the pattern's name part. *)
Lemma name_label_group (text : string) (m : nat * state) :
  search true name_label_pattern text = Some m ->
  lang true name_words (group text m).
Proof.
  destruct m as [s st]. intros H.
  apply search_loop_inv in H as (_ & H & _).
  unfold match_at, name_label_pattern, Char, Star, Opt in H.
  pose proof (anchored_start_at text s) as Ha.
  do 7 peel H Ha.
  apply mtch_Group in H as (u & st' & Hu & Hr & [= <-]).
  unfold group; cbn [snd group1]. now rewrite (substr_reach text u _ _ Ha Hr).
Qed.

(** The same for the leading-name pattern. *)
Lemma name_pattern_group (text : string) (m : nat * state) :
  search false name_pattern text = Some m ->
  lang false name_words (group text m).
Proof.
  destruct m as [s st]. intros H.
  apply search_loop_inv in H as (_ & H & _).
  unfold match_at, name_pattern, Plus in H.
  pose proof (anchored_start_at text s) as Ha.
  peel H Ha. rewrite mtch_Seq in H.
  apply mtch_Group in H as (u & st' & Hu & Hr & H).
  apply mtch_keeps_group in H as (st'' & Hg & [= <-]); [|reflexivity].
  unfold group; cbn [snd]. rewrite Hg; cbn [group1].
  now rewrite (substr_reach text u _ _ Ha Hr).
Qed.

(** Whatever heuristic answers, the Name Extractor's answer is not the
    empty string. *)
Lemma extract_name_nonempty (nlp : language_model) (text n : string) :
  extract_name nlp text = Ok n -> n <> "".
Proof.
  unfold extract_name.
  destruct (first_line allcaps_name _) as [line|] eqn:H1.
  { intros [= <-]. apply first_line_Some in H1. unfold allcaps_name in H1.
    apply andb_prop in H1 as [[H1 _]%andb_prop _]. now apply isupper_nonempty. }
  destruct (search true name_label_pattern _) as [m|] eqn:H2.
  { intros [= <-]. eapply name_words_nonempty, name_label_group, H2. }
  destruct (nlp (take 2000 text)) as [ents|e]; cbn [bind]; [|discriminate].
  destruct (match person_entities ents with
            | [] => None
            | _ :: _ => head (valid_names (person_entities ents))
            end) as [v|] eqn:H3.
  { intros [= <-].
    assert (Hv : v ∈ valid_names (person_entities ents)).
    { destruct (person_entities ents); [discriminate|].
      now apply head_Some_elem_of. }
    apply list_elem_of_filter in Hv as [Hv _].
    apply split_nonempty. lia. }
  destruct (first_line capitalized_name _) as [line|] eqn:H4.
  { intros [= <-]. apply first_line_Some in H4. unfold capitalized_name in H4.
    apply andb_prop in H4 as [[[H4 _]%andb_prop _]%andb_prop _].
    apply Nat.leb_le in H4. apply split_nonempty. lia. }
  destruct (search false name_pattern _) as [m|] eqn:H5.
  { intros [= <-]. eapply name_words_nonempty, name_pattern_group, H5. }
  intros [= <-]. discriminate.
Qed.

(** X6: the Name Extractor raises exactly when its first two heuristics find
    nothing and the language-model call raises. *)
Lemma extract_name_raises (nlp : language_model) (text : string) (e : exn) :
  extract_name nlp text = Raise e <->
  first_line allcaps_name (firstn 5 (split_on newline text)) = None
  /\ search true name_label_pattern (take 1000 text) = None
  /\ nlp (take 2000 text) = Raise e.
Proof.
  unfold extract_name.
  destruct (first_line allcaps_name _); [split; [discriminate | now intros [? _]]|].
  destruct (search true name_label_pattern _);
    [split; [discriminate | now intros (_ & ? & _)]|].
  destruct (nlp (take 2000 text)) as [ents|e']; cbn [bind].
  - split; [|now intros (_ & _ & ?)].
    destruct (match person_entities ents with [] => None | _ :: _ => _ end);
      [discriminate|].
    destruct (first_line capitalized_name _); [discriminate|].
    destruct (search false name_pattern _); discriminate.
  - split; [intros [= ->]; auto | now intros (_ & _ & [= ->])].
Qed.

(** C3: when the first line of the text, trimmed, is upper-case in the
    sense of [isupper], splits into two or three whitespace-separated
    tokens and has no digit, the Name Extractor returns that trimmed line,
    whatever the rest of the text holds (a labeled name included) and
    whatever the language model would answer. *)
Theorem allcaps_first_line_wins (nlp : language_model) (text : string) :
  let line := strip (List.hd "" (split_on newline text)) in
  isupper line = true ->
  2 <= length (split line) <= 3 ->
  any_isdigit line = false ->
  extract_name nlp text = Ok line.
Proof.
  intros line Hupper [Hlo Hhi] Hdigit. unfold extract_name.
  destruct (first_five_lines text) as [more ->].
  cbn [first_line]. fold line.
  unfold allcaps_name. rewrite Hupper, Hdigit.
  apply Nat.leb_le in Hlo, Hhi. now rewrite Hlo, Hhi.
Qed.

Lemma allcaps_first_line_wins_witness :
  search true name_label_pattern (take 1000 caps_then_label) <> None
  /\ extract_name failing_model caps_then_label = Ok "JOHN MICHAEL SMITH".
Proof.
  split; [vm_compute; discriminate|].
  apply (allcaps_first_line_wins failing_model caps_then_label);
    vm_compute; [reflexivity | lia | reflexivity].
Defined.

(** C4: when the all-caps scan, the labeled pattern, the entity heuristic,
    the capitalized-line scan and the leading-name pattern all find
    nothing, the Name Extractor returns the fixed default name
    ["HEMANTH JAYARAM"], which is not the empty string; what it returns is
    not the empty string. *)
Theorem default_name_when_all_heuristics_fail
    (nlp : language_model) (text : string) (ents : list entity) :
  let lines := firstn 5 (split_on newline text) in
  first_line allcaps_name lines = None ->
  search true name_label_pattern (take 1000 text) = None ->
  nlp (take 2000 text) = Ok ents ->
  valid_names (person_entities ents) = [] ->
  first_line capitalized_name lines = None ->
  search false name_pattern (take 1000 text) = None ->
  extract_name nlp text = Ok default_name
  /\ default_name = "HEMANTH JAYARAM"
  /\ default_name <> ""
  /\ (forall n, extract_name nlp text = Ok n -> n <> "").
Proof.
  intros lines H1 H2 Hnlp H3 H4 H5. unfold extract_name at 1. fold lines.
  rewrite H1, H2, Hnlp. cbn [bind]. rewrite H3, H4, H5.
  split; [now destruct (person_entities ents)|].
  split; [reflexivity|]. split; [discriminate|].
  intros n. apply extract_name_nonempty.
Qed.

Lemma default_name_when_all_heuristics_fail_witness :
  extract_name quiet_model "curriculum vitae, 2024" = Ok "HEMANTH JAYARAM".
Proof.
  refine (proj1 (default_name_when_all_heuristics_fail quiet_model
                   "curriculum vitae, 2024" [] _ _ _ _ _ _));
    vm_compute; reflexivity.
Defined.

(** C5: the labeled pattern carries the inline flag [(?i)], which applies
    to the whole pattern, the sets [A-Z] and [a-z] of the name tokens
    included.  On the text ["name: jane doe"] the Name Extractor returns the
    labeled candidate ["jane doe"], whose tokens are not capitalized; read
    without the flag, the same pattern does not match that text. *)
Theorem labeled_name_need_not_be_capitalized (nlp : language_model) :
  extract_name nlp "name: jane doe" = Ok "jane doe"
  /\ search false name_label_pattern (take 1000 "name: jane doe") = None.
Proof. split; vm_compute; reflexivity. Qed.

(* ------------------------------------------------------------------ *)
(** ** The Phone Extractor *)
(* ------------------------------------------------------------------ *)

Lemma str_take_drop (n : nat) (s : string) : take n s +:+ drop n s = s.
Proof.
  revert s; induction n as [|n IH]; intros [|c s]; simpl; auto.
  now rewrite IH.
Qed.

(** What the Phone Extractor returns when the pattern occurs in the text. *)
Lemma extract_phone_number_found (text : string) (s : nat) (st : state) :
  search false phone_pattern text = Some (s, st) ->
  findall false phone_pattern text <> []
  /\ extract_phone_number text = group0 text (s, st).
Proof.
  intros H. unfold extract_phone_number. rewrite findall_search, H.
  split; [discriminate | reflexivity].
Qed.

Lemma extract_phone_number_first (text m : string) (ms : list string) :
  findall false phone_pattern text = m :: ms ->
  extract_phone_number text = m
  /\ exists s st, match_at false phone_pattern text s = Some st
                  /\ m = group0 text (s, st).
Proof.
  intros H. unfold extract_phone_number. rewrite H. split; [reflexivity|].
  rewrite findall_search in H.
  destruct (search false phone_pattern text) as [[s st]|] eqn:Hs; [|discriminate].
  injection H as <- _. apply search_loop_inv in Hs as (_ & Hm & _). eauto.
Qed.

(** The first character of a string of the phone pattern's language. *)
Lemma phone_lang_first (w : string) :
  lang false phone_pattern w ->
  exists c tl, w = String c tl
    /\ (in_set false [Lit "+"; Lit "("] c = true
        \/ in_set false [Range "1" "9"] c = true).
Proof.
  unfold phone_pattern, Opt. intros H.
  inversion H as [| r1 r2 w1 w2 H1 H2 | | | | |]; subst; clear H.
  inversion H2 as [| r1 r2 w3 w4 H3 H4 | | | | |]; subst; clear H2.
  inversion H3 as [items c Hc | | | | | |]; subst; clear H3.
  inversion H1 as [| | hi r | lo hi r wa wb _ Ha Hb | | |]; subst; clear H1.
  - simpl. eauto.
  - inversion Ha as [items c' Hc' | | | | | |]; subst. simpl. eauto.
Qed.

Lemma leading_sign (c : ascii) :
  in_set false [Lit "+"; Lit "("] c = true -> c = "+"%char \/ c = "("%char.
Proof.
  unfold in_set, item_matches; simpl. rewrite !orb_false_r.
  intros [H|H]%orb_prop; apply Ascii.eqb_eq in H; auto.
Qed.

Lemma leading_digit (c : ascii) :
  in_set false [Range "1" "9"] c = true -> (49 <= N_of_ascii c <= 57)%N.
Proof.
  unfold in_set, item_matches, item_has, between, code; simpl.
  rewrite !orb_false_r. intros [H1 H2]%andb_prop.
  apply N.leb_le in H1, H2. change (N_of_ascii "1") with 49%N in H1.
  change (N_of_ascii "9") with 57%N in H2. lia.
Qed.

(** C10: when the Phone Extractor returns a match of its pattern, the first
    element of [findall], the returned string starts with [+], with [(], or
    with a digit from 1 to 9 (code points 49 to 57); it does not start with
    the digit 0. *)
Theorem phone_match_first_character (text m : string) (ms : list string) :
  findall false phone_pattern text = m :: ms ->
  extract_phone_number text = m
  /\ exists c tl, m = String c tl
       /\ (c = "+"%char \/ c = "("%char \/ (49 <= N_of_ascii c <= 57)%N)
       /\ c <> "0"%char.
Proof.
  intros H. apply extract_phone_number_first in H as [Hm (s & st & Hat & ->)].
  split; [exact Hm|].
  apply group0_sound in Hat as (w & Hw & -> & _).
  apply phone_lang_first in Hw as (c & tl & -> & Hc).
  exists c, tl. split; [reflexivity|].
  destruct Hc as [[-> | ->]%leading_sign | Hc%leading_digit].
  - split; [auto | discriminate].
  - split; [auto | discriminate].
  - split; [auto|]. intros ->. vm_compute in Hc. destruct Hc as [Hc _]. now apply Hc.
Qed.

Lemma phone_match_first_character_witness :
  extract_phone_number "Phone: 080 2345 6789 (home)" = "80 2345 6789".
Proof.
  refine (proj1 (phone_match_first_character "Phone: 080 2345 6789 (home)"
                   "80 2345 6789" [] _)).
  vm_compute; reflexivity.
Defined.

(** The pattern matches where the sample number stands, whatever is around
    it; the match ends at the last digit the run of the set reaches. *)
Lemma match_at_sample (pre post : string) :
  match_at false phone_pattern (pre +:+ phone_sample +:+ post) (String.length pre)
  = Some match greedy false phone_body 0 None (Some "7"%char)
                 (String.length pre + 17) post None last_digit with
         | Some res => res
         | None => State (Some "7"%char) (String.length pre + 17) post None
         end.
Proof.
  unfold match_at, start_at. rewrite str_drop_app. apply phone_at_sample.
Qed.

(** Where that match ends: after the sample and a prefix of what follows,
    and right after the sample when what follows cannot continue the run. *)
Lemma sample_match_end (i : nat) (post : string) :
  exists n,
    pos match greedy false phone_body 0 None (Some "7"%char) (i + 17) post None
                last_digit with
        | Some res => res
        | None => State (Some "7"%char) (i + 17) post None
        end = i + 17 + n
    /\ (ends_run post = true -> n = 0).
Proof.
  destruct (greedy false phone_body 0 None (Some "7"%char) (i + 17) post None
              last_digit) as [res|] eqn:Hg.
  - pose proof Hg as Hinv.
    apply greedy_inv in Hinv as (w & s' & p' & -> & _ & Hw & Hk).
    unfold last_digit in Hk. destruct s' as [|d s']; [discriminate|].
    rewrite mtch_In_cons in Hk.
    destruct (in_set false [Range "0" "9"] d) eqn:Hd; [|discriminate].
    injection Hk as <-. exists (S (String.length w)). split; [simpl; lia|].
    intros Hend. exfalso.
    assert (Hbody : in_set false phone_body d = true).
    { unfold in_set in *; simpl in *. rewrite orb_false_r in Hd. now rewrite Hd. }
    destruct w as [|c w].
    + change (negb (in_set false phone_body d) = true) in Hend.
      now rewrite Hbody in Hend.
    + change (negb (in_set false phone_body c) = true) in Hend.
      cbn [all_chars] in Hw. apply andb_prop in Hw as [Hc _].
      now rewrite Hc in Hend.
  - exists 0. split; [simpl; lia | reflexivity].
Qed.

Lemma digit_in_phone_body (c : ascii) :
  in_set false [Range "0" "9"] c = true -> in_set false phone_body c = true.
Proof.
  unfold in_set; simpl. rewrite orb_false_r. now intros ->.
Qed.

Lemma upto_last_digit_nil (s : string) :
  upto_last_digit s = "" <-> has_digit s = false.
Proof.
  unfold has_digit.
  induction s as [|c s IH]; cbn [upto_last_digit PyStr.existsb]; [tauto|].
  destruct (upto_last_digit s) as [|x r].
  - destruct IH as [IH _]. rewrite (IH eq_refl), orb_false_r.
    destruct (in_set false [Range "0" "9"] c); split; congruence.
  - split; [discriminate|]. intros [_ Hs]%orb_false_elim.
    destruct IH as [_ IH]. discriminate (IH Hs).
Qed.

Lemma body_run_prefix (s : string) : exists tail, s = body_run s +:+ tail.
Proof.
  induction s as [|c s [tail IH]]; cbn [body_run]; [now exists ""|].
  destruct (in_set false phone_body c); [|now exists (String c s)].
  exists tail. now rewrite IH at 1.
Qed.

Lemma upto_last_digit_prefix (s : string) :
  exists tail, s = upto_last_digit s +:+ tail.
Proof.
  induction s as [|c s [tail IH]]; cbn [upto_last_digit]; [now exists ""|].
  destruct (upto_last_digit s) as [|x r].
  - destruct (in_set false [Range "0" "9"] c);
      [now exists s | now exists (String c s)].
  - exists tail. now rewrite IH at 1.
Qed.

(** The digits, spaces, dots, dashes and parentheses that follow, up to the
    last digit among them, stand at the start of the text. *)
Lemma extension_prefix (post : string) :
  take (String.length (upto_last_digit (body_run post))) post
  = upto_last_digit (body_run post).
Proof.
  destruct (body_run_prefix post) as [t1 H1].
  destruct (upto_last_digit_prefix (body_run post)) as [t2 H2].
  rewrite H1 at 2. rewrite H2 at 2. rewrite str_app_assoc.
  apply str_take_app.
Qed.

(** The loop over the set followed by the last digit, run on the text
    after the sample: it consumes exactly that extension, and fails when
    there is none. *)
Lemma greedy_extension (g : option (nat * nat)) :
  forall post p i,
    match upto_last_digit (body_run post) with
    | EmptyString =>
        greedy false phone_body 0 None p i post g last_digit = None
    | String _ _ as ext =>
        exists st,
          greedy false phone_body 0 None p i post g last_digit = Some st
          /\ pos st = i + String.length ext
    end.
Proof.
  induction post as [|c post IH]; intros p i; [reflexivity|].
  rewrite greedy_cons. cbn [may_repeat andb dec_hi Nat.pred body_run].
  destruct (in_set false phone_body c) eqn:Hc; cbn [upto_last_digit].
  - specialize (IH (Some c) (S i)).
    destruct (upto_last_digit (body_run post)) as [|x r].
    + rewrite IH. unfold last_digit. rewrite !mtch_In_cons.
      destruct (in_set false [Range "0" "9"] c); [|reflexivity].
      eexists; split; [reflexivity|]. simpl; lia.
    + destruct IH as (st & -> & Hpos). exists st. split; [reflexivity|].
      rewrite Hpos. simpl; lia.
  - unfold last_digit. rewrite mtch_In_cons.
    destruct (in_set false [Range "0" "9"] c) eqn:Hd; [|reflexivity].
    apply digit_in_phone_body in Hd. congruence.
Qed.

(** Where the match on the sample ends, exactly. *)
Lemma sample_match_end_exact (i : nat) (post : string) :
  pos match greedy false phone_body 0 None (Some "7"%char) (i + 17) post None
              last_digit with
      | Some res => res
      | None => State (Some "7"%char) (i + 17) post None
      end
  = i + 17 + String.length (upto_last_digit (body_run post)).
Proof.
  pose proof (greedy_extension None post (Some "7"%char) (i + 17)) as H.
  destruct (upto_last_digit (body_run post)) as [|x r].
  - rewrite H. simpl; lia.
  - destruct H as (st & -> & Hpos). exact Hpos.
Qed.

(** C7, as the code has it: on every text that contains
    ["+1 (555) 123-4567"] the Phone Extractor returns a match of its pattern
    (not the fallback), a substring of the text left as it stands there.
    When no match starts before the occurrence, the returned string is the
    sample followed by the longest prefix of the text after it that is made
    of digits, spaces, dots, dashes and parentheses and ends with a digit,
    for the repetition is greedy.  So it is the sample exactly if and only
    if the run of such characters right after the occurrence has no digit;
    in particular when the text after it is empty or starts with a
    character outside the set. *)
Theorem phone_sample_extraction (pre post : string) :
  let text := pre +:+ phone_sample +:+ post in
  (findall false phone_pattern text <> []
   /\ lang false phone_pattern (extract_phone_number text)
   /\ exists before after, text = before +:+ extract_phone_number text +:+ after)
  /\ (no_match_before (String.length pre) text ->
      extract_phone_number text
      = phone_sample +:+ upto_last_digit (body_run post)
      /\ (extract_phone_number text = phone_sample
          <-> has_digit (body_run post) = false)
      /\ (exists n, extract_phone_number text = phone_sample +:+ take n post)
      /\ (ends_run post = true -> extract_phone_number text = phone_sample)).
Proof.
  intros text. pose proof (match_at_sample pre post) as Hat. fold text in Hat.
  destruct (sample_match_end (String.length pre) post) as (n & Hpos & Hend).
  pose proof (sample_match_end_exact (String.length pre) post) as Hexact.
  match type of Hat with _ = Some ?x => set (m := x) in * end.
  split.
  - assert (Hlen : 0 <= String.length pre < 0 + S (String.length text)).
    { unfold text. rewrite str_length_app. lia. }
    destruct (search_loop_some _ _ _ _ _ _ _ Hlen Hat) as (s & st & Hs).
    destruct (extract_phone_number_found text s st Hs) as [Hne ->].
    split; [exact Hne|].
    apply search_loop_inv in Hs as (_ & Hm & _).
    apply group0_sound in Hm as (w & Hw & -> & Hd).
    split; [exact Hw|].
    exists (take s text), (rest st). now rewrite <- Hd, str_take_drop.
  - intros Hnone.
    assert (Hs : search false phone_pattern text = Some (String.length pre, m)).
    { apply search_loop_first; [| |exact Hat].
      - unfold text. rewrite str_length_app. lia.
      - intros j Hj. apply Hnone. lia. }
    destruct (extract_phone_number_found text _ _ Hs) as [_ ->].
    assert (Hg : group0 text (String.length pre, m) = phone_sample +:+ take n post).
    { unfold group0, substr; cbn [fst snd]. rewrite Hpos.
      unfold text. rewrite str_drop_app.
      replace (String.length pre + 17 + n - String.length pre)
        with (String.length phone_sample + n) by (simpl; lia).
      apply str_take_app_plus. }
    assert (Hx : group0 text (String.length pre, m)
                 = phone_sample +:+ upto_last_digit (body_run post)).
    { unfold group0, substr; cbn [fst snd]. rewrite Hexact.
      unfold text. rewrite str_drop_app.
      replace (String.length pre + 17
               + String.length (upto_last_digit (body_run post))
               - String.length pre)
        with (String.length phone_sample
              + String.length (upto_last_digit (body_run post)))
        by (simpl; lia).
      rewrite str_take_app_plus. now rewrite extension_prefix. }
    split; [exact Hx|]. split.
    + rewrite Hx, <- upto_last_digit_nil. split.
      * intros H. apply (f_equal String.length) in H.
        rewrite str_length_app in H.
        destruct (upto_last_digit (body_run post)); [reflexivity|].
        simpl in H. lia.
      * intros ->. apply str_app_nil_r.
    + rewrite Hg. split; [eauto|].
      intros H. rewrite (Hend H). cbn [take]. now rewrite str_app_nil_r.
Qed.

Lemma phone_sample_extraction_witness :
  extract_phone_number "Tel: +1 (555) 123-4567 (home) 9" = "+1 (555) 123-4567".
Proof.
  assert (Hnone : no_match_before (String.length "Tel: ")
                    ("Tel: " +:+ phone_sample +:+ " (home) 9")).
  { intros i Hi.
    do 5 (destruct i as [|i]; [vm_compute; reflexivity|]).
    simpl in Hi. lia. }
  destruct (proj2 (phone_sample_extraction "Tel: " " (home) 9") Hnone)
    as (_ & Hiff & _).
  apply Hiff. reflexivity.
Defined.

(** C7, counterexample to the claim as stated: in
    ["Tel: +1 (555) 123-4567 89"] no match starts before the sample, and the
    Phone Extractor returns the sample with [" 89"] appended. *)
Lemma phone_sample_not_returned_exactly :
  no_match_before 5 "Tel: +1 (555) 123-4567 89"
  /\ extract_phone_number "Tel: +1 (555) 123-4567 89" = "+1 (555) 123-4567 89"
  /\ extract_phone_number ("Tel: " +:+ phone_sample +:+ " 89") <> phone_sample.
Proof.
  split; [|split; [vm_compute; reflexivity | vm_compute; discriminate]].
  intros i Hi.
  do 5 (destruct i as [|i]; [vm_compute; reflexivity|]). lia.
Qed.

(* ------------------------------------------------------------------ *)
(** ** Text extraction and the orchestrator, further properties *)
(* ------------------------------------------------------------------ *)

Lemma concat_pages_texts (acc : string) (texts : list string) :
  concat_pages acc (Ok <$> texts) = Some (acc +:+ join texts).
Proof.
  revert acc; induction texts as [|t ts IH]; intros acc; simpl.
  - now rewrite str_app_nil_r.
  - now rewrite IH, str_app_assoc.
Qed.

Lemma concat_pages_inv (pages : list (result string)) :
  forall acc,
    (exists texts, pages = Ok <$> texts)
    \/ (concat_pages acc pages = None /\ exists e, Raise e ∈ pages).
Proof.
  induction pages as [|[t|e] ps IH]; intros acc; simpl.
  - left. now exists [].
  - destruct (IH (acc +:+ t)) as [[ts ->] | [HN [e He]]].
    + left. now exists (t :: ts).
    + right. split; [exact HN|]. exists e. now apply list_elem_of_further.
  - right. split; [reflexivity|]. exists e. apply list_elem_of_here.
Qed.

(** X1: text extraction gives no text at all exactly when the file cannot
    be read or some page fails; text already read from earlier pages is
    dropped. *)
Theorem extract_text_None_iff (file : pdf) :
  extract_text_from_pdf file = None <->
  (exists e, file = Unreadable e)
  \/ (exists pages e, file = Pages pages /\ Raise e ∈ pages).
Proof.
  destruct file as [e|pages]; simpl.
  - split; [eauto | reflexivity].
  - split.
    + intros H. right. exists pages.
      destruct (concat_pages_inv pages "") as [[ts ->] | [_ [e He]]]; [|eauto].
      now rewrite concat_pages_texts in H.
    + intros [[e [=]] | (ps & e & [= <-] & He)].
      destruct (concat_pages_inv pages "") as [[ts ->] | [HN _]]; [|exact HN].
      apply list_elem_of_fmap in He as (t & [=] & _).
Qed.

(** X2: when every page gives text, the extracted text is the pages' texts
    joined in page order with nothing between them; and it is some text
    only in that case. *)
Theorem extract_text_Some_iff (file : pdf) (text : string) :
  extract_text_from_pdf file = Some text <->
  exists texts, file = Pages (Ok <$> texts) /\ text = join texts.
Proof.
  split.
  - destruct file as [e|pages]; simpl; [discriminate|]. intros H.
    destruct (concat_pages_inv pages "") as [[ts ->] | [HN _]]; [|congruence].
    rewrite concat_pages_texts in H. injection H as <-. eauto.
  - intros (ts & -> & ->). simpl. now rewrite concat_pages_texts.
Qed.

(** When the Name Extractor raises, it is the language-model call that
    raised. *)
Lemma extract_name_Raise_model (nlp : language_model) (text : string) (e : exn) :
  extract_name nlp text = Raise e -> nlp (take 2000 text) = Raise e.
Proof.
  unfold extract_name.
  destruct (first_line allcaps_name _); [discriminate|].
  destruct (search true name_label_pattern _); [discriminate|].
  destruct (nlp (take 2000 text)) as [ents|e']; cbn [bind]; [|congruence].
  destruct (match person_entities ents with [] => None | _ :: _ => _ end);
    [discriminate|].
  destruct (first_line capitalized_name _); [discriminate|].
  destruct (search false name_pattern _); discriminate.
Qed.

(** X3: [parse] raises exactly when the document has text and the Name
    Extractor raises on it; nothing else in [parse] can fail. *)
Theorem parse_raises_iff (nlp : language_model) (file : pdf) (e : exn) :
  parse nlp file = Raise e <->
  exists text, extract_text_from_pdf file = Some text /\ text <> ""
               /\ extract_name nlp text = Raise e.
Proof.
  unfold parse. destruct (extract_text_from_pdf file) as [[|c text]|].
  - split; [discriminate | intros (t & [= <-] & Hne & _); contradiction].
  - destruct (extract_name nlp (String c text)) as [n|e'] eqn:Hn; cbn [bind].
    + split; [discriminate|]. intros (t & [= <-] & _ & H). congruence.
    + split.
      * intros [= ->]. exists (String c text). now repeat split.
      * intros (t & [= <-] & _ & H). congruence.
  - split; [discriminate | intros (t & [=] & _)].
Qed.

(** X4: with a language model that never raises, [parse] returns a record
    for every document. *)
Theorem parse_returns_with_total_model (nlp : language_model) (file : pdf) :
  (forall text, exists ents, nlp text = Ok ents) ->
  exists r, parse nlp file = Ok r.
Proof.
  intros Htotal. unfold parse.
  destruct (extract_text_from_pdf file) as [[|c text]|]; [eauto | | eauto].
  destruct (extract_name nlp (String c text)) as [n|e] eqn:Hn; cbn [bind];
    [eauto|].
  apply extract_name_Raise_model in Hn.
  destruct (Htotal (take 2000 (String c text))) as [ents Hents]. congruence.
Qed.

Lemma parse_returns_with_total_model_witness :
  exists r, parse quiet_model (Pages [Ok "curriculum"; Ok " vitae"]) = Ok r.
Proof.
  apply (parse_returns_with_total_model quiet_model).
  intros text. exists []. reflexivity.
Defined.

(** X5: the canonical empty record is returned only when there is no text:
    a record [parse] builds from a text is never the empty one. *)
Theorem parse_empty_iff (nlp : language_model) (file : pdf) :
  parse nlp file = Ok get_empty_resume_structure <->
  extract_text_from_pdf file = None \/ extract_text_from_pdf file = Some "".
Proof.
  split; [|apply parse_no_text].
  unfold parse. destruct (extract_text_from_pdf file) as [[|c text]|]; auto.
  destruct (extract_name nlp (String c text)); cbn [bind]; discriminate.
Qed.

(* ------------------------------------------------------------------ *)
(** ** The Name Extractor, further properties *)
(* ------------------------------------------------------------------ *)

Lemma str_take_take (n m : nat) (s : string) :
  n <= m -> take n (take m s) = take n s.
Proof.
  revert m s; induction n as [|n IH]; intros [|m] [|c s] H; simpl; auto; try lia.
  rewrite IH by lia. reflexivity.
Qed.

(** X7: the Name Extractor reads only the first five lines and the first
    2000 characters: two texts that agree on both get the same answer. *)
Theorem extract_name_local (nlp : language_model) (text text' : string) :
  firstn 5 (split_on newline text) = firstn 5 (split_on newline text') ->
  take 2000 text = take 2000 text' ->
  extract_name nlp text = extract_name nlp text'.
Proof.
  intros Hlines Hchars.
  assert (H1000 : take 1000 text = take 1000 text').
  { rewrite <- (str_take_take 1000 2000 text), <- (str_take_take 1000 2000 text')
      by lia. now rewrite Hchars. }
  unfold extract_name. now rewrite Hlines, H1000, Hchars.
Qed.

Lemma valid_names_skip (skipped : list entity) (e : entity) (others : list entity) :
  Forall (fun x => label_ x <> "PERSON" \/ length (split (ent_text x)) < 2)
         skipped ->
  label_ e = "PERSON" -> 2 <= length (split (ent_text e)) ->
  valid_names (person_entities (skipped ++ e :: others))
  = ent_text e :: valid_names (person_entities others).
Proof.
  intros Hskip He1 He2. unfold valid_names, person_entities.
  induction Hskip as [|x xs Hx _ IH]; simpl.
  - rewrite filter_cons, decide_True by exact He1.
    rewrite fmap_cons, filter_cons, decide_True by exact He2. reflexivity.
  - rewrite filter_cons. destruct (decide (label_ x = "PERSON")) as [Hp|Hp].
    + rewrite fmap_cons, filter_cons.
      destruct (decide (2 <= length (split (ent_text x)))) as [Hn|Hn];
        [|exact IH].
      destruct Hx; [contradiction | lia].
    + exact IH.
Qed.

(** X8: when the all-caps scan and the labeled pattern find nothing, the
    Name Extractor returns the text of the first entity the model labels
    PERSON that has at least two tokens; entities with another label or a
    single token before it are passed over. *)
Theorem extract_name_first_valid_entity
    (nlp : language_model) (text : string)
    (skipped : list entity) (e : entity) (others : list entity) :
  first_line allcaps_name (firstn 5 (split_on newline text)) = None ->
  search true name_label_pattern (take 1000 text) = None ->
  nlp (take 2000 text) = Ok (skipped ++ e :: others) ->
  Forall (fun x => label_ x <> "PERSON" \/ length (split (ent_text x)) < 2)
         skipped ->
  label_ e = "PERSON" -> 2 <= length (split (ent_text e)) ->
  extract_name nlp text = Ok (ent_text e).
Proof.
  intros H1 H2 Hnlp Hskip He1 He2. unfold extract_name.
  rewrite H1, H2, Hnlp. cbn [bind].
  pose proof (valid_names_skip skipped e others Hskip He1 He2) as Hv.
  rewrite Hv.
  destruct (person_entities (skipped ++ e :: others)); [|reflexivity].
  discriminate Hv.
Qed.

Lemma mtch_AtStart ic st (k : cont) :
  mtch ic AtStart st k = if pos st =? 0 then k st else None.
Proof. reflexivity. Qed.

(** The leading-name pattern matches at the start of the text only, and its
    group is what the text starts with. *)
Lemma name_pattern_prefix (text : string) (m : nat * state) :
  search false name_pattern text = Some m ->
  fst m = 0 /\ exists tail, text = group text m +:+ tail.
Proof.
  destruct m as [s st]. intros H.
  apply search_loop_inv in H as (_ & H & _).
  unfold match_at, name_pattern, Plus in H.
  rewrite mtch_Seq, mtch_AtStart in H. cbn [pos start_at] in H.
  destruct (s =? 0) eqn:Hs; [|discriminate]. apply Nat.eqb_eq in Hs as ->.
  split; [reflexivity|].
  rewrite mtch_Seq in H.
  apply mtch_Group in H as (u & st' & Hu & Hr & H).
  apply mtch_keeps_group in H as (st'' & Hg & [= <-]); [|reflexivity].
  exists (rest st'). unfold group; cbn [snd]. rewrite Hg; cbn [group1].
  rewrite (substr_reach text u _ _ (anchored_start_at text 0) Hr).
  destruct Hr as [Hr _]. cbn [rest start_at] in Hr. now rewrite str_drop_0 in Hr.
Qed.

(** X9: when only the last heuristic is left, the name returned is the
    fixed default or a name the text starts with. *)
Theorem extract_name_leading_or_default
    (nlp : language_model) (text n : string) (ents : list entity) :
  let lines := firstn 5 (split_on newline text) in
  first_line allcaps_name lines = None ->
  search true name_label_pattern (take 1000 text) = None ->
  nlp (take 2000 text) = Ok ents ->
  valid_names (person_entities ents) = [] ->
  first_line capitalized_name lines = None ->
  extract_name nlp text = Ok n ->
  n = default_name \/ exists tail, text = n +:+ tail.
Proof.
  intros lines H1 H2 Hnlp H3 H4. unfold extract_name. fold lines.
  rewrite H1, H2, Hnlp. cbn [bind]. rewrite H3, H4.
  replace (match person_entities ents with [] => None | _ :: _ => head [] end)
    with (@None string) by now destruct (person_entities ents).
  destruct (search false name_pattern (take 1000 text)) as [m|] eqn:H5.
  - intros [= <-]. right.
    apply name_pattern_prefix in H5 as [_ [tail Htail]].
    exists (tail +:+ drop 1000 text).
    transitivity (take 1000 text +:+ drop 1000 text);
      [symmetry; apply str_take_drop|].
    rewrite Htail at 1. apply str_app_assoc.
  - intros [= <-]. now left.
Qed.

Import MoreInputs.

Lemma extract_name_local_witness :
  extract_name quiet_model (long_text "JOHN SMITH")
  = extract_name quiet_model (long_text "Jane Doe").
Proof.
  apply (extract_name_local quiet_model (long_text "JOHN SMITH")
           (long_text "Jane Doe")); vm_compute; reflexivity.
Defined.

Lemma extract_name_first_valid_entity_witness :
  extract_name entity_model "curriculum vitae" = Ok "Jane Doe".
Proof.
  refine (extract_name_first_valid_entity entity_model "curriculum vitae"
            [ {| ent_text := "Acme Corp"; label_ := "ORG" |};
              {| ent_text := "Jane"; label_ := "PERSON" |} ]
            {| ent_text := "Jane Doe"; label_ := "PERSON" |}
            [ {| ent_text := "John Smith"; label_ := "PERSON" |} ]
            eq_refl eq_refl eq_refl _ eq_refl _).
  - constructor; [left; discriminate|].
    constructor; [right; vm_compute; lia|]. constructor.
  - vm_compute; lia.
Defined.

Lemma extract_name_leading_or_default_witness :
  "Jane Doe" = default_name
  \/ exists tail, "Jane Doe and four more words" = "Jane Doe" +:+ tail.
Proof.
  refine (extract_name_leading_or_default quiet_model
            "Jane Doe and four more words" "Jane Doe" [] _ _ _ _ _ _);
    vm_compute; reflexivity.
Defined.

(* ------------------------------------------------------------------ *)
(** ** The E-mail and Phone Extractors, further properties *)
(* ------------------------------------------------------------------ *)

Import Shapes.

(** A repeated set consumes characters of the set, at least the minimum. *)
Lemma lang_Repeat_In ic (items : list item) :
  forall w lo hi,
    lang ic (Repeat lo hi (In items)) w ->
    all_chars (in_set ic items) w = true /\ lo <= String.length w.
Proof.
  induction w as [|c w IH]; intros lo hi H.
  - inversion H as [| | | lo' hi' r w1 w2 _ H1 H2 | | |]; subst.
    + split; [reflexivity | simpl; lia].
    + inversion H1; subst.
      match goal with E : _ +:+ _ = "" |- _ => simpl in E; discriminate E end.
  - inversion H as [| | | lo' hi' r w1 w2 _ H1 H2 | | |]; subst.
    inversion H1 as [items' c' Hc | | | | | |]; subst.
    match goal with
    | E : _ +:+ _ = String _ _ |- _ => simpl in E; injection E as -> ->
    end.
    apply IH in H2 as [Hall Hlen]. simpl. rewrite Hc, Hall.
    split; [reflexivity | lia].
Qed.

Lemma lang_Char ic (c : ascii) (w : string) :
  lang ic (Char c) w -> exists x, w = String x "" /\ in_set ic [Lit c] x = true.
Proof. unfold Char. intros H. inversion H; subst. eauto. Qed.

Lemma findall_first ic (r : regex) (text m : string) (ms : list string) :
  findall ic r text = m :: ms ->
  exists s st, match_at ic r text s = Some st /\ m = group0 text (s, st).
Proof.
  rewrite findall_search.
  destruct (search ic r text) as [[s st]|] eqn:Hs; [|discriminate].
  intros [= <- _]. apply search_loop_inv in Hs as (_ & Hm & _). eauto.
Qed.

(** A match is a string of the pattern's language, standing in the text. *)
Lemma findall_first_in_text ic (r : regex) (text m : string) (ms : list string) :
  findall ic r text = m :: ms ->
  lang ic r m /\ exists before after, text = before +:+ m +:+ after.
Proof.
  intros H. apply findall_first in H as (s & st & Hat & ->).
  apply group0_sound in Hat as (w & Hw & -> & Hd).
  split; [exact Hw|]. exists (take s text), (rest st).
  now rewrite <- Hd, str_take_drop.
Qed.

Lemma contains_app (c : ascii) (a b : string) :
  App.contains c (a +:+ b) = App.contains c a || App.contains c b.
Proof.
  unfold App.contains. induction a as [|x a IH]; simpl; [reflexivity|].
  now rewrite IH, orb_assoc.
Qed.

Lemma email_lang_shaped (w : string) :
  lang false email_pattern w -> email_shaped w.
Proof.
  unfold email_pattern, Plus, AtLeast. intros H.
  inversion H as [| ? ? w0 wa H0 Ha | | | | |]; subst; clear H.
  inversion H0; subst; clear H0.
  inversion Ha as [| ? ? local wb Hlocal Hb | | | | |]; subst; clear Ha.
  inversion Hb as [| ? ? at_sign wc Hat Hc | | | | |]; subst; clear Hb.
  inversion Hc as [| ? ? domain wd Hdomain Hd | | | | |]; subst; clear Hc.
  inversion Hd as [| ? ? dot we Hdot He | | | | |]; subst; clear Hd.
  inversion He as [| ? ? tld w1 Htld H1 | | | | |]; subst; clear He.
  inversion H1; subst; clear H1.
  apply lang_Char in Hat as (x & -> & Hx), Hdot as (y & -> & Hy).
  assert (x = "@"%char) as ->.
  { unfold in_set, item_matches in Hx; simpl in Hx.
    rewrite !orb_false_r in Hx. now apply Ascii.eqb_eq in Hx. }
  assert (y = "."%char) as ->.
  { unfold in_set, item_matches in Hy; simpl in Hy.
    rewrite !orb_false_r in Hy. now apply Ascii.eqb_eq in Hy. }
  apply lang_Repeat_In in Hlocal, Hdomain, Htld.
  exists local, domain, tld. repeat split; try tauto.
  simpl. now rewrite str_app_nil_r.
Qed.

(** X10: a text without the character [@] holds no e-mail address for the
    pattern, and the E-mail Extractor returns its fixed fallback. *)
Theorem extract_email_without_at (text : string) :
  App.contains "@" text = false -> extract_email text = default_email.
Proof.
  intros Hno. unfold extract_email.
  destruct (findall false email_pattern text) as [|m ms] eqn:Hf; [reflexivity|].
  apply findall_first_in_text in Hf as [Hm (before & after & ->)].
  apply email_lang_shaped in Hm as (local & domain & tld & -> & _).
  rewrite !contains_app in Hno.
  change (App.contains "@" "@") with true in Hno.
  rewrite !orb_true_r, ?orb_true_l in Hno. simpl in Hno.
  rewrite ?orb_true_r in Hno. discriminate.
Qed.

Lemma extract_email_without_at_witness :
  extract_email "write to jane.doe (at) example.com" = default_email.
Proof. apply extract_email_without_at. vm_compute; reflexivity. Defined.

(** X11: an e-mail address the extractor finds is a substring of the text
    of the form local [@] domain [.] tld: a non-empty local part of
    [A-Za-z0-9._%+-], a non-empty domain of [A-Za-z0-9.-], and at least two
    final characters that are letters or [|]. *)
Theorem extract_email_shape (text m : string) (ms : list string) :
  findall false email_pattern text = m :: ms ->
  extract_email text = m
  /\ email_shaped m
  /\ exists before after, text = before +:+ m +:+ after.
Proof.
  intros H. split; [unfold extract_email; now rewrite H|].
  apply findall_first_in_text in H as [Hm Hsub].
  split; [now apply email_lang_shaped | exact Hsub].
Qed.

Lemma extract_email_shape_witness :
  extract_email "Contact me at a.b+c@example.co.uk for details"
  = "a.b+c@example.co.uk".
Proof.
  refine (proj1 (extract_email_shape
                   "Contact me at a.b+c@example.co.uk for details"
                   "a.b+c@example.co.uk" [] _)).
  vm_compute; reflexivity.
Defined.

Lemma phone_lang_shaped (w : string) :
  lang false phone_pattern w -> phone_shaped w.
Proof.
  unfold phone_pattern, Opt, AtLeast. intros H.
  inversion H as [| ? ? sign wa Hsign Ha | | | | |]; subst; clear H.
  inversion Ha as [| ? ? wd wb Hd Hb | | | | |]; subst; clear Ha.
  inversion Hd as [? d Hd' | | | | | |]; subst; clear Hd.
  inversion Hb as [| ? ? body wl Hbody Hl | | | | |]; subst; clear Hb.
  inversion Hl as [? last Hlast | | | | | |]; subst; clear Hl.
  apply lang_Repeat_In in Hbody.
  exists sign, d, body, last. repeat split; try tauto.
  inversion Hsign as [| | | ? ? ? s1 s2 _ H1 H2 | | |]; subst; [now left|].
  inversion H1 as [? c Hc | | | | | |]; subst.
  inversion H2 as [| | | ? ? ? ? ? Hmay | | |]; subst; [|discriminate Hmay].
  right. now destruct (leading_sign c Hc) as [-> | ->]; [left | right].
Qed.

Lemma findall_phone_shaped (text m : string) (ms : list string) :
  findall false phone_pattern text = m :: ms ->
  phone_shaped m /\ exists before after, text = before +:+ m +:+ after.
Proof.
  intros [Hm Hsub]%findall_first_in_text.
  split; [now apply phone_lang_shaped | exact Hsub].
Qed.

Lemma length_in_text (before m after : string) :
  String.length m <= String.length (before +:+ m +:+ after).
Proof. rewrite !str_length_app. lia. Qed.

Lemma phone_shaped_length (m : string) : phone_shaped m -> 10 <= String.length m.
Proof.
  intros (sign & d & body & last & -> & _ & _ & [_ Hlen] & _).
  rewrite str_length_app. simpl. rewrite str_length_app. simpl. lia.
Qed.

(** X12: a phone number the extractor finds is a substring of the text
    made of an optional [+] or [(], a digit from 1 to 9, at least eight
    characters among digits, space, dot, dash and parentheses, and a last
    digit; it has at least ten characters. *)
Theorem extract_phone_number_shape (text m : string) (ms : list string) :
  findall false phone_pattern text = m :: ms ->
  extract_phone_number text = m
  /\ phone_shaped m
  /\ 10 <= String.length m
  /\ exists before after, text = before +:+ m +:+ after.
Proof.
  intros H. split; [unfold extract_phone_number; now rewrite H|].
  apply findall_phone_shaped in H as [Hm Hsub].
  auto using phone_shaped_length.
Qed.

Lemma extract_phone_number_shape_witness :
  extract_phone_number "Mobile (98) 6500-900.12, office" = "(98) 6500-900.12".
Proof.
  refine (proj1 (extract_phone_number_shape "Mobile (98) 6500-900.12, office"
                   "(98) 6500-900.12" [] _)).
  vm_compute; reflexivity.
Defined.

(** X13: a text of fewer than ten characters never holds a phone number
    for the pattern: the Phone Extractor returns its fixed fallback. *)
Theorem extract_phone_number_short_text (text : string) :
  String.length text < 10 -> extract_phone_number text = default_phone.
Proof.
  intros Hshort. unfold extract_phone_number.
  destruct (findall false phone_pattern text) as [|m ms] eqn:Hf; [reflexivity|].
  apply findall_phone_shaped in Hf as (Hlen%phone_shaped_length & before & after & ->).
  pose proof (length_in_text before m after). lia.
Qed.

Lemma extract_phone_number_short_text_witness :
  extract_phone_number "555-1234" = default_phone.
Proof. apply extract_phone_number_short_text. vm_compute; lia. Defined.

Lemma leading_digit_not_sign (d : ascii) :
  in_set false [Range "1" "9"] d = true ->
  in_set false [Lit "+"; Lit "("] d = false.
Proof.
  intros Hd%leading_digit.
  destruct (in_set false [Lit "+"; Lit "("] d) eqn:Hs; [|reflexivity].
  destruct (leading_sign d Hs) as [-> | ->]; vm_compute in Hd;
    destruct Hd as [Hd _]; now contradiction Hd.
Qed.

Lemma str_take_all (s : string) : take (String.length s) s = s.
Proof. induction s as [|c s IH]; simpl; [reflexivity | now rewrite IH]. Qed.

(** After the optional sign, the pattern takes a shaped number whole. *)
Lemma phone_core (p : option ascii) (i : nat) (d last : ascii) (body : string)
    (g : option (nat * nat)) :
  in_set false [Range "1" "9"] d = true ->
  within phone_body 8 body ->
  in_set false [Range "0" "9"] last = true ->
  mtch false
    (In [Range "1" "9"] >> Repeat 8 None (In phone_body) >> In [Range "0" "9"])
    (State p i (String d (body +:+ String last "")) g) Some
  = Some (State (Some last) (S (S (i + String.length body))) "" g).
Proof.
  intros Hd [Hall Hlen] Hlast.
  rewrite mtch_Seq, mtch_In_cons, Hd, mtch_Seq, mtch_Repeat_In.
  apply greedy_run; [exact Hall|].
  replace (8 - String.length body) with 0 by lia.
  rewrite greedy_cons, (digit_in_phone_body last Hlast).
  cbn [may_repeat andb dec_hi Nat.pred greedy mtch rest pos group1].
  rewrite Hlast. reflexivity.
Qed.

(** Anchored at its start, a shaped number is matched to its end. *)
Lemma phone_shaped_match (m : string) :
  phone_shaped m ->
  exists st, match_at false phone_pattern m 0 = Some st
             /\ pos st = String.length m.
Proof.
  intros (sign & d & body & last & -> & Hsign & Hd & Hbody & Hlast).
  unfold match_at, start_at, phone_pattern, Opt, AtLeast.
  rewrite str_drop_0, mtch_Seq, mtch_Repeat_In.
  destruct Hsign as [-> | [-> | ->]].
  - change ("" +:+ String d (body +:+ String last ""))
      with (String d (body +:+ String last "")).
    rewrite greedy_cons, (leading_digit_not_sign d Hd).
    cbn [may_repeat andb]. rewrite (phone_core _ _ _ _ _ _ Hd Hbody Hlast).
    eexists; split; [reflexivity|]. simpl. rewrite str_length_app. simpl. lia.
  - change ("+" +:+ String d (body +:+ String last ""))
      with (String "+" (String d (body +:+ String last ""))).
    rewrite greedy_cons. run_set. cbn [may_repeat andb dec_hi Nat.pred].
    rewrite greedy_cons. cbn [may_repeat andb].
    rewrite (phone_core _ _ _ _ _ _ Hd Hbody Hlast).
    eexists; split; [reflexivity|]. simpl. rewrite str_length_app. simpl. lia.
  - change ("(" +:+ String d (body +:+ String last ""))
      with (String "(" (String d (body +:+ String last ""))).
    rewrite greedy_cons. run_set. cbn [may_repeat andb dec_hi Nat.pred].
    rewrite greedy_cons. cbn [may_repeat andb].
    rewrite (phone_core _ _ _ _ _ _ Hd Hbody Hlast).
    eexists; split; [reflexivity|]. simpl. rewrite str_length_app. simpl. lia.
Qed.

Lemma extract_phone_number_of_shaped (m : string) :
  phone_shaped m -> extract_phone_number m = m.
Proof.
  intros (st & Hat & Hpos)%phone_shaped_match.
  assert (Hs : search false phone_pattern m = Some (0, st)).
  { unfold search. cbn [search_loop]. now rewrite Hat. }
  destruct (extract_phone_number_found m 0 st Hs) as [_ ->].
  unfold group0, substr; cbn [fst snd]. rewrite Hpos, Nat.sub_0_r, str_drop_0.
  apply str_take_all.
Qed.

(** X14: what the Phone Extractor returns is stable: extracting again from
    its answer, a found number or the fallback, gives the same answer. *)
Theorem extract_phone_number_idempotent (text : string) :
  extract_phone_number (extract_phone_number text) = extract_phone_number text.
Proof.
  destruct (findall false phone_pattern text) as [|m ms] eqn:Hf.
  - unfold extract_phone_number at 2 3. rewrite Hf. vm_compute; reflexivity.
  - unfold extract_phone_number at 2 3. rewrite Hf.
    apply findall_phone_shaped in Hf as [Hm _].
    now apply extract_phone_number_of_shaped.
Qed.

Lemma extract_email_nonempty (text : string) : extract_email text <> "".
Proof.
  unfold extract_email.
  destruct (findall false email_pattern text) as [|m ms] eqn:Hf; [discriminate|].
  apply findall_first_in_text in Hf as [Hm _].
  apply email_lang_shaped in Hm as (local & domain & tld & -> & _).
  intros H. apply (f_equal String.length) in H.
  rewrite !str_length_app in H. simpl in H. lia.
Qed.

Lemma extract_phone_number_nonempty (text : string) :
  extract_phone_number text <> "".
Proof.
  destruct (findall false phone_pattern text) as [|m ms] eqn:Hf.
  - unfold extract_phone_number. rewrite Hf. discriminate.
  - unfold extract_phone_number. rewrite Hf.
    apply findall_phone_shaped in Hf as [Hlen%phone_shaped_length _].
    intros ->. simpl in Hlen. lia.
Qed.

(** X15: a record [parse] returns is the canonical empty record, or none of
    its four personal-information strings is empty: fields are never
    empty one by one. *)
Theorem parsed_personal_info_all_or_nothing
    (nlp : language_model) (file : pdf) (r : ResumeRecord) :
  parse nlp file = Ok r ->
  r = get_empty_resume_structure
  \/ (name (personal_info r) <> "" /\ email (personal_info r) <> ""
      /\ phone (personal_info r) <> "" /\ address (personal_info r) <> "").
Proof.
  unfold parse. destruct (extract_text_from_pdf file) as [[|c text]|].
  - intros [= <-]. now left.
  - destruct (extract_name nlp (String c text)) as [n|e] eqn:Hn; cbn [bind];
      [|discriminate].
    intros [= <-]. right. cbn [personal_info name email phone address].
    repeat split.
    + eapply extract_name_nonempty, Hn.
    + apply extract_email_nonempty.
    + apply extract_phone_number_nonempty.
    + discriminate.
  - intros [= <-]. now left.
Qed.

Lemma parsed_personal_info_all_or_nothing_witness :
  exists r, parse quiet_model (Pages [Ok "curriculum vitae"]) = Ok r
            /\ name (personal_info r) <> "".
Proof.
  eexists. split; [vm_compute; reflexivity|].
  destruct (parsed_personal_info_all_or_nothing quiet_model
              (Pages [Ok "curriculum vitae"]) _ eq_refl) as [H | [H _]].
  - discriminate H.
  - exact H.
Defined.

(* ------------------------------------------------------------------ *)
(** ** app.py: the upload filter and the request handlers *)
(* ------------------------------------------------------------------ *)

Import App.

Lemma rsplit1_no_sep (sep : ascii) (s : string) :
  contains sep s = false -> rsplit1 sep s = [s].
Proof.
  unfold contains. induction s as [|c s IH]; simpl; [reflexivity|].
  intros [Hc Hs]%orb_false_elim. rewrite (IH Hs), Hc. reflexivity.
Qed.

Lemma rsplit1_last (sep : ascii) (stem ext : string) :
  contains sep ext = false ->
  rsplit1 sep (stem +:+ String sep ext) = [stem; ext].
Proof.
  intros Hext. induction stem as [|c stem IH]; simpl.
  - now rewrite (rsplit1_no_sep sep ext Hext), Ascii.eqb_refl.
  - now rewrite IH.
Qed.

(** A text with a separator splits at its last one. *)
Lemma last_sep (sep : ascii) (s : string) :
  contains sep s = true ->
  exists stem ext, s = stem +:+ String sep ext /\ contains sep ext = false.
Proof.
  unfold contains. induction s as [|c s IH]; simpl; [discriminate|].
  destruct (existsb (fun x => Ascii.eqb x sep) s) eqn:Hs.
  - intros _. destruct (IH eq_refl) as (stem & ext & -> & Hext).
    now exists (String c stem), ext.
  - rewrite orb_false_r. intros ->%Ascii.eqb_eq. now exists "", s.
Qed.

Lemma lower_not_dot (c x : ascii) :
  lower c = x -> x <> "."%char -> c <> "."%char.
Proof. intros <- Hx ->. now apply Hx. Qed.

Lemma pdf_has_no_dot (ext : string) :
  lower_str ext = "pdf" -> contains "." ext = false.
Proof.
  destruct ext as [|a [|b [|c [|? ?]]]]; try discriminate.
  simpl. intros [= Ha Hb Hc]. unfold contains; simpl.
  rewrite !orb_false_r.
  apply lower_not_dot in Ha, Hb, Hc; try discriminate.
  apply Ascii.eqb_neq in Ha, Hb, Hc. now rewrite Ha, Hb, Hc.
Qed.

Lemma in_allowed_extensions (ext : string) :
  bool_decide (ext ∈ ALLOWED_EXTENSIONS) = true <-> ext = "pdf".
Proof.
  unfold ALLOWED_EXTENSIONS. rewrite bool_decide_eq_true. set_solver.
Qed.

(** X16: a file name is accepted exactly when it ends with a dot followed
    by [pdf] in any mix of upper and lower case; only what follows the last
    dot counts, and a name without a dot is refused. *)
Theorem allowed_file_iff (filename : string) :
  allowed_file filename = true <->
  exists stem ext, filename = stem +:+ "." +:+ ext /\ lower_str ext = "pdf".
Proof.
  unfold allowed_file. split.
  - intros [Hdot H]%andb_prop.
    apply last_sep in Hdot as (stem & ext & -> & Hext).
    rewrite (rsplit1_last "." stem ext Hext) in H. cbn in H.
    exists stem, ext. split; [reflexivity | now apply in_allowed_extensions].
  - intros (stem & ext & -> & Hext).
    pose proof (pdf_has_no_dot ext Hext) as Hno.
    change (stem +:+ "." +:+ ext) with (stem +:+ String "." ext).
    rewrite (rsplit1_last "." stem ext Hno). cbn.
    rewrite contains_app. unfold contains at 2; simpl.
    rewrite orb_true_r. now apply in_allowed_extensions.
Qed.

Lemma allowed_file_nonempty (name : string) :
  allowed_file name = true -> name <> "".
Proof. now intros H ->. Qed.

(** The file the handler has just saved is there when the parser is
    built: the constructor's own failure cannot occur in the handler. *)
Lemma init_after_save (env : environment) (existing : gset string) :
  init (load_models env)
       (bool_decide (filepath env ∈ ({[ filepath env ]} ∪ existing : gset string)))
       (filepath env)
  = load_models env.
Proof.
  rewrite bool_decide_eq_true_2 by set_solver.
  unfold init. now destruct (load_models env).
Qed.

Lemma upload_file_success
    (file : upload) (env : environment) (st : app_state)
    (nlp : language_model) (r : ResumeRecord) :
  allowed_file (filename file) = true ->
  save env = Ok tt ->
  load_models env = Ok nlp ->
  parse nlp (content file) = Ok r ->
  upload_file (Some file) env st
  = (Redirect ShowResult,
     AppState (Some r) (Some (filepath env)) (flashes st)
              ({[ filepath env ]} ∪ files st)).
Proof.
  intros Hallowed Hsave Hload Hparse. unfold upload_file.
  rewrite bool_decide_eq_false_2 by now apply allowed_file_nonempty.
  cbn [negb andb]. rewrite Hallowed, Hsave. cbn [files].
  rewrite init_after_save, Hload, Hparse. reflexivity.
Qed.

Lemma upload_file_success_inv
    (part : option upload) (env : environment) (st st' : app_state) :
  upload_file part env st = (Redirect ShowResult, st') ->
  exists file nlp r,
    part = Some file
    /\ allowed_file (filename file) = true
    /\ save env = Ok tt
    /\ load_models env = Ok nlp
    /\ parse nlp (content file) = Ok r
    /\ st' = AppState (Some r) (Some (filepath env)) (flashes st)
                      ({[ filepath env ]} ∪ files st).
Proof.
  unfold upload_file.
  destruct part as [file|]; [|discriminate].
  destruct (bool_decide (filename file = "")); [discriminate|]. cbn [negb andb].
  destruct (allowed_file (filename file)) eqn:Hallowed; [|discriminate].
  destruct (save env) as [[]|e] eqn:Hsave; [|discriminate].
  cbn [files]. rewrite init_after_save.
  destruct (load_models env) as [nlp|e] eqn:Hload; [|discriminate].
  destruct (parse nlp (content file)) as [r|e] eqn:Hparse; [|discriminate].
  intros [= <-]. exists file, nlp, r. repeat split; auto.
Qed.

(** X17: the upload handler redirects to the results page exactly when a
    part named resume is present, its name is accepted, saving it and
    loading the models succeed and [parse] returns a record; the session
    then holds that record and the path of the saved file. *)
Theorem upload_file_success_iff
    (part : option upload) (env : environment) (st st' : app_state) :
  upload_file part env st = (Redirect ShowResult, st') <->
  exists file nlp r,
    part = Some file
    /\ allowed_file (filename file) = true
    /\ save env = Ok tt
    /\ load_models env = Ok nlp
    /\ parse nlp (content file) = Ok r
    /\ st' = AppState (Some r) (Some (filepath env)) (flashes st)
                      ({[ filepath env ]} ∪ files st).
Proof.
  split; [apply upload_file_success_inv|].
  intros (file & nlp & r & -> & Hallowed & Hsave & Hload & Hparse & ->).
  now apply (upload_file_success file env st nlp r).
Qed.

(** Once the files are read, a handler that does not reach the results
    page redirects to the index page, leaves both session keys as they were
    and flashes exactly one message, of category danger. *)
Lemma upload_file_failure
    (part : option upload) (env : environment) (st st' : app_state)
    (resp : response) :
  upload_file part env st = (resp, st') ->
  resp <> Redirect ShowResult ->
  resp = Redirect Index
  /\ session_resume_data st' = session_resume_data st
  /\ session_temp_file st' = session_temp_file st
  /\ exists message, flashes st' = flashes st ++ [(message, "danger")].
Proof.
  unfold upload_file, parse_error.
  destruct part as [file|]; [|intros [= <- <-] _; simpl; eauto 6].
  destruct (bool_decide (filename file = ""));
    [intros [= <- <-] _; simpl; eauto 6|]. cbn [negb andb].
  destruct (allowed_file (filename file));
    [|intros [= <- <-] _; simpl; eauto 6].
  destruct (save env) as [[]|e]; [|intros [= <- <-] _; simpl; eauto 6].
  cbn [files]. rewrite init_after_save.
  destruct (load_models env) as [nlp|e]; [|intros [= <- <-] _; simpl; eauto 6].
  destruct (parse nlp (content file)) as [r|e];
    [|intros [= <- <-] _; simpl; eauto 6].
  intros [= <- <-] H. now contradiction H.
Qed.

(** X18: an exception leaves the upload handler exactly when reading
    [request.files] raises, which happens outside the [try] (a body over
    [MAX_CONTENT_LENGTH]); every failure after that is caught.  When the
    handler returns without reaching the results page, it redirects to the
    index page, leaves both session keys as they were and flashes exactly
    one message, of category danger. *)
Theorem upload_file_outcomes
    (request_files : result (option upload)) (env : environment)
    (st : app_state) :
  (forall e, upload_file_from_request request_files env st = Raise e
             <-> request_files = Raise e)
  /\ (forall resp st',
        upload_file_from_request request_files env st = Ok (resp, st') ->
        resp <> Redirect ShowResult ->
        resp = Redirect Index
        /\ session_resume_data st' = session_resume_data st
        /\ session_temp_file st' = session_temp_file st
        /\ exists message, flashes st' = flashes st ++ [(message, "danger")]).
Proof.
  unfold upload_file_from_request. destruct request_files as [part|e0]; cbn [bind].
  - split; [split; discriminate|].
    intros resp st' [= H]. now apply (upload_file_failure part env st).
  - split; [|discriminate]. intros e. split; congruence.
Qed.

Lemma upload_file_outcomes_witness :
  upload_file_from_request (Raise too_large) (working_env quiet_model) fresh
  = Raise too_large
  /\ exists st',
       upload_file_from_request (Ok (Some word_upload))
         (working_env quiet_model) fresh = Ok (Redirect Index, st')
       /\ session_resume_data st' = None.
Proof.
  split.
  - apply (proj1 (upload_file_outcomes (Raise too_large)
                    (working_env quiet_model) fresh)). reflexivity.
  - eexists. split; [vm_compute; reflexivity|].
    refine (proj1 (proj2 (proj2 (upload_file_outcomes (Ok (Some word_upload))
                                   (working_env quiet_model) fresh)
                            (Redirect Index) _ _ _))).
    + vm_compute; reflexivity.
    + discriminate.
Defined.

Lemma cleanup_keeps_data (env : environment) (st : app_state) :
  session_resume_data (cleanup env st) = session_resume_data st
  /\ flashes (cleanup env st) = flashes st.
Proof.
  unfold cleanup. destruct (session_temp_file st) as [f|]; [|auto].
  destruct (negb _ && _); [|auto]. now destruct (remove env).
Qed.

Lemma cleanup_without_temp_file (env : environment) (st : app_state) :
  session_temp_file st = None -> cleanup env st = st.
Proof. unfold cleanup. now intros ->. Qed.

(** X19: a whole upload request that reaches the results page removes the
    file it saved: when [os.remove] succeeds the file is gone, every other
    file is as before and the session no longer names a temporary file;
    when it raises, file and session key both stay. *)
Theorem upload_request_removes_temp_file
    (part : option upload) (env : environment) (st st1 : app_state) :
  upload_file part env st = (Redirect ShowResult, st1) ->
  filepath env <> "" ->
  (remove env = Ok tt ->
   upload_request part env st
   = (Redirect ShowResult,
      AppState (session_resume_data st1) None (flashes st)
               (files st ∖ {[ filepath env ]})))
  /\ (forall e, remove env = Raise e ->
      upload_request part env st = (Redirect ShowResult, st1)).
Proof.
  intros Hup Hpath. unfold upload_request. rewrite Hup.
  apply upload_file_success_inv in Hup
    as (file & nlp & r & _ & _ & _ & _ & _ & ->).
  unfold cleanup. cbn [session_temp_file session_resume_data flashes files].
  rewrite (bool_decide_eq_false_2 _ Hpath), bool_decide_eq_true_2 by set_solver.
  cbn [negb andb]. split.
  - intros ->. do 2 f_equal.
    now rewrite difference_union_distr_l_L, difference_diag_L, (left_id_L ∅ (∪)).
  - now intros e ->.
Qed.

Lemma upload_request_removes_temp_file_witness :
  upload_request (Some pdf_upload) (working_env quiet_model)
    (AppState None None [] {[ "/tmp/other.pdf" ]})
  = (Redirect ShowResult,
     AppState (session_resume_data
                 (snd (upload_file (Some pdf_upload) (working_env quiet_model)
                         (AppState None None [] {[ "/tmp/other.pdf" ]}))))
              None [] ({[ "/tmp/other.pdf" ]} ∖ {[ "/tmp/7d_cv.PDF" ]})).
Proof.
  refine (proj1 (upload_request_removes_temp_file (Some pdf_upload)
                   (working_env quiet_model)
                   (AppState None None [] {[ "/tmp/other.pdf" ]}) _ _ _)
            eq_refl).
  - vm_compute. reflexivity.
  - discriminate.
Defined.

(** X20: when the file was saved but building the parser or parsing
    raises, the request ends on the index page with the exception's text
    flashed, and the saved file stays: the session names no temporary
    file, so this and every later [cleanup] leave it where it is. *)
Theorem upload_request_failure_keeps_file
    (file : upload) (env : environment) (st : app_state) (e : exn) :
  allowed_file (filename file) = true ->
  save env = Ok tt ->
  (nlp <- load_models env ;; parse nlp (content file)) = Raise e ->
  session_temp_file st = None ->
  exists st',
    upload_request (Some file) env st = (Redirect Index, st')
    /\ flashes st' = flashes st ++ [("Error parsing resume: " +:+ str e, "danger")]
    /\ filepath env ∈ files st'
    /\ session_temp_file st' = None
    /\ forall env', cleanup env' st' = st'.
Proof.
  intros Hallowed Hsave Hfail Htemp.
  unfold upload_request, upload_file.
  rewrite bool_decide_eq_false_2 by now apply allowed_file_nonempty.
  cbn [negb andb]. rewrite Hallowed, Hsave. cbn [files].
  rewrite init_after_save.
  destruct (load_models env) as [nlp|e'] eqn:Hload; cbn [bind] in Hfail.
  - rewrite Hfail. unfold parse_error.
    rewrite cleanup_without_temp_file by exact Htemp.
    eexists; split; [reflexivity|]. cbn.
    repeat split; [set_solver | exact Htemp |].
    intros env'. now apply cleanup_without_temp_file.
  - injection Hfail as ->. unfold parse_error.
    rewrite cleanup_without_temp_file by exact Htemp.
    eexists; split; [reflexivity|]. cbn.
    repeat split; [set_solver | exact Htemp |].
    intros env'. now apply cleanup_without_temp_file.
Qed.

Lemma upload_request_failure_keeps_file_witness :
  exists st',
    upload_request (Some pdf_upload) (working_env failing_model) fresh
    = (Redirect Index, st')
    /\ flashes st'
       = [("Error parsing resume: language model failure", "danger")]
    /\ "/tmp/7d_cv.PDF" ∈ files st'.
Proof.
  destruct (upload_request_failure_keeps_file pdf_upload
              (working_env failing_model) fresh model_error)
    as (st' & H1 & H2 & H3 & _).
  - vm_compute; reflexivity.
  - reflexivity.
  - vm_compute; reflexivity.
  - reflexivity.
  - exists st'. auto.
Defined.

(** X21: a PDF with an accepted name from which no text can be extracted
    still leads to the results page, and the next request to [/result]
    renders the canonical empty record rather than redirecting. *)
Theorem textless_upload_shows_empty_record
    (file : upload) (env env' : environment) (nlp : language_model)
    (st : app_state) :
  allowed_file (filename file) = true ->
  save env = Ok tt ->
  load_models env = Ok nlp ->
  extract_text_from_pdf (content file) = None
  \/ extract_text_from_pdf (content file) = Some "" ->
  fst (upload_request (Some file) env st) = Redirect ShowResult
  /\ fst (result_request env' (snd (upload_request (Some file) env st)))
     = Render "result.html" (Some get_empty_resume_structure).
Proof.
  intros Hallowed Hsave Hload Hnotext.
  pose proof (parse_no_text nlp (content file) Hnotext) as Hparse.
  assert (Hup : upload_file (Some file) env st
                = (Redirect ShowResult,
                   AppState (Some get_empty_resume_structure)
                            (Some (filepath env)) (flashes st)
                            ({[ filepath env ]} ∪ files st))).
  { now apply (upload_file_success file env st nlp). }
  unfold upload_request, result_request, show_result. rewrite Hup. cbn [fst snd].
  split; [reflexivity|].
  destruct (cleanup_keeps_data env
              (AppState (Some get_empty_resume_structure) (Some (filepath env))
                        (flashes st) ({[ filepath env ]} ∪ files st)))
    as [-> _].
  reflexivity.
Qed.

Lemma textless_upload_shows_empty_record_witness :
  fst (result_request (working_env quiet_model)
         (snd (upload_request (Some scanned_upload) (working_env quiet_model)
                 fresh)))
  = Render "result.html" (Some get_empty_resume_structure).
Proof.
  refine (proj2 (textless_upload_shows_empty_record scanned_upload
                   (working_env quiet_model) (working_env quiet_model)
                   quiet_model fresh _ eq_refl eq_refl (or_intror eq_refl))).
  vm_compute; reflexivity.
Defined.

(* ------------------------------------------------------------------ *)
(** ** utils.py: format_resume_data *)
(* ------------------------------------------------------------------ *)

Import Utils.

(** The four [if key not in resume_data] steps, in the order of the code. *)
Lemma format_resume_data_fill (data : gmap string json) :
  format_resume_data (Some data)
  = fill "work_experience" (JList [])
      (fill "skills" (JDict ∅)
         (fill "education" (JList [])
            (fill "personal_info" (JDict ∅) data))).
Proof.
  unfold format_resume_data. case_bool_decide as Hsize; [|reflexivity].
  apply map_size_empty_iff in Hsize as ->.
  apply map_eq. intros key. unfold fill.
  repeat (rewrite ?lookup_insert, ?lookup_empty; try case_decide;
          simplify_eq; try reflexivity).
Qed.

Lemma lookup_fill (key : string) (default : json) (d : gmap string json)
    (k : string) :
  fill key default d !! k
  = match d !! k with
    | Some v => Some v
    | None => if decide (k = key) then Some default else None
    end.
Proof.
  unfold fill. destruct (d !! key) as [v|] eqn:Hkey.
  - destruct (d !! k) eqn:Hk; [reflexivity|].
    case_decide; [congruence | reflexivity].
  - rewrite lookup_insert. case_decide as E.
    + subst k. rewrite Hkey. now rewrite decide_True.
    + destruct (d !! k); [reflexivity|]. now rewrite decide_False by congruence.
Qed.

Lemma dom_fill (key : string) (default : json) (d : gmap string json) :
  dom (fill key default d) = dom d ∪ {[ key ]}.
Proof.
  unfold fill. destruct (d !! key) as [v|] eqn:Hkey.
  - apply (elem_of_dom_2 d) in Hkey. apply set_eq. intros x.
    rewrite elem_of_union, elem_of_singleton.
    split; [tauto | intros [Hx | ->]; assumption].
  - rewrite dom_insert_L. apply set_eq. intros x.
    rewrite !elem_of_union, elem_of_singleton. tauto.
Qed.

Lemma elem_of_sections (key : string) :
  key ∈ sections <->
  key = "personal_info" \/ key = "education" \/ key = "skills"
  \/ key = "work_experience".
Proof.
  unfold sections. rewrite !elem_of_union, !elem_of_singleton. tauto.
Qed.

Lemma section_keys :
  "personal_info" ∈ sections /\ "education" ∈ sections
  /\ "skills" ∈ sections /\ "work_experience" ∈ sections.
Proof. rewrite !elem_of_sections. tauto. Qed.

Lemma dom_format_resume_data (data : gmap string json) :
  dom (format_resume_data (Some data)) = dom data ∪ sections.
Proof.
  rewrite format_resume_data_fill, !dom_fill. apply set_eq. intros x.
  rewrite !elem_of_union, elem_of_sections, !elem_of_singleton. tauto.
Qed.

Lemma fill_present (key : string) (default : json) (d : gmap string json) :
  key ∈ dom d -> fill key default d = d.
Proof. intros [v Hv]%elem_of_dom. unfold fill. now rewrite Hv. Qed.

Lemma format_resume_data_fixed (data : gmap string json) :
  sections ⊆ dom data -> format_resume_data (Some data) = data.
Proof.
  intros Hsub. rewrite format_resume_data_fill.
  assert (Hin : forall key, key ∈ sections -> key ∈ dom data) by auto.
  rewrite (fill_present "personal_info") by (apply Hin, section_keys).
  rewrite (fill_present "education") by (apply Hin, section_keys).
  rewrite (fill_present "skills") by (apply Hin, section_keys).
  apply fill_present, Hin, section_keys.
Qed.

(** X22: formatting never removes or changes an entry and adds nothing but
    the missing ones of the four sections: the keys of the result are those
    of the argument together with the four sections, and every entry of the
    argument is still there with its value. *)
Theorem format_resume_data_keeps_entries (data : gmap string json) :
  dom (format_resume_data (Some data)) = dom data ∪ sections
  /\ forall key value,
       data !! key = Some value ->
       format_resume_data (Some data) !! key = Some value.
Proof.
  split; [apply dom_format_resume_data|].
  intros key value H. rewrite format_resume_data_fill, !lookup_fill, H.
  reflexivity.
Qed.

Lemma format_resume_data_keeps_entries_witness :
  format_resume_data (Some (<[ "education" := JList [JStr "BSc"] ]> ∅))
    !! "education"
  = Some (JList [JStr "BSc"]).
Proof.
  apply (proj2 (format_resume_data_keeps_entries
                  (<[ "education" := JList [JStr "BSc"] ]> ∅))).
  reflexivity.
Defined.

(** X23: a dictionary that already has the four sections comes back as it
    is; so does the dictionary of every record [parse] returns. *)
Theorem format_resume_data_complete (data : gmap string json) :
  sections ⊆ dom data ->
  format_resume_data (Some data) = data.
Proof.
  apply format_resume_data_fixed.
Qed.

Lemma dom_record_dict (r : ResumeRecord) : dom (record_dict r) = sections.
Proof.
  unfold record_dict, sections. rewrite !dom_insert_L, dom_empty_L. set_solver.
Qed.

Lemma format_resume_data_complete_witness :
  format_resume_data (Some (record_dict get_empty_resume_structure))
  = record_dict get_empty_resume_structure.
Proof.
  apply format_resume_data_complete. now rewrite dom_record_dict.
Defined.

(** X24: the sections a missing or empty argument gets are empty: an empty
    dictionary for the personal information and the skills, an empty list
    for education and work experience; nothing else is in the result. *)
Theorem format_resume_data_of_nothing (data : option (gmap string json)) :
  data = None \/ data = Some ∅ ->
  dom (format_resume_data data) = sections
  /\ format_resume_data data !! "personal_info" = Some (JDict ∅)
  /\ format_resume_data data !! "education" = Some (JList [])
  /\ format_resume_data data !! "skills" = Some (JDict ∅)
  /\ format_resume_data data !! "work_experience" = Some (JList []).
Proof.
  intros [-> | ->]; (split; [|repeat split; reflexivity]).
  - unfold format_resume_data, sections.
    rewrite !dom_insert_L, dom_empty_L. set_solver.
  - rewrite dom_format_resume_data, dom_empty_L. apply (left_id_L ∅ (∪)).
Qed.

Lemma format_resume_data_of_nothing_witness :
  dom (format_resume_data None) = sections.
Proof. exact (proj1 (format_resume_data_of_nothing None (or_introl eq_refl))). Defined.

(** X25: formatting twice is formatting once. *)
Theorem format_resume_data_idempotent (data : option (gmap string json)) :
  format_resume_data (Some (format_resume_data data)) = format_resume_data data.
Proof.
  apply format_resume_data_fixed.
  destruct data as [d|].
  - rewrite dom_format_resume_data. apply union_subseteq_r.
  - unfold format_resume_data, sections.
    rewrite !dom_insert_L, dom_empty_L. set_solver.
Qed.

(* ------------------------------------------------------------------ *)
(** ** The characters of a name found by a pattern *)
(* ------------------------------------------------------------------ *)

Lemma all_chars_app (p : ascii -> bool) (a b : string) :
  all_chars p (a +:+ b) = all_chars p a && all_chars p b.
Proof.
  induction a as [|c a IH]; simpl; [reflexivity|].
  now rewrite IH, andb_assoc.
Qed.

(** A string of a pattern's language is made of characters of its sets. *)
Lemma lang_sets_within ic (p : ascii -> bool) (r : regex) (w : string) :
  lang ic r w -> sets_within ic p r -> all_chars p w = true.
Proof.
  induction 1 as [items c Hc | r1 r2 w1 w2 _ IH1 _ IH2 | hi r
                 | lo hi r w1 w2 _ _ IH1 _ IH2 | r w _ IH | | ];
    simpl; intros Hsets; try reflexivity.
  - now rewrite (Hsets c Hc).
  - destruct Hsets as [H1 H2]. now rewrite all_chars_app, IH1, IH2.
  - now rewrite all_chars_app, IH1, IH2.
  - auto.
Qed.

Lemma name_words_letters ic : sets_within ic letter_or_space name_words.
Proof.
  assert (Hupper : forall c, in_set ic [Range "A" "Z"] c = true ->
                             letter_or_space c = true).
  { intros c. destruct ic, c as [[] [] [] [] [] [] [] []];
      vm_compute; intros H; first [reflexivity | discriminate H]. }
  assert (Hlower : forall c, in_set ic [Range "a" "z"] c = true ->
                             letter_or_space c = true).
  { intros c. destruct ic, c as [[] [] [] [] [] [] [] []];
      vm_compute; intros H; first [reflexivity | discriminate H]. }
  assert (Hspace : forall c, in_set ic [Space] c = true ->
                             letter_or_space c = true).
  { intros c. destruct ic, c as [[] [] [] [] [] [] [] []];
      vm_compute; intros H; first [reflexivity | discriminate H]. }
  unfold name_words, capitalized_word, Plus; simpl. auto 10.
Qed.

Lemma letters_and_spaces_no_digit (s : string) :
  all_chars letter_or_space s = true -> any_isdigit s = false.
Proof.
  assert (Hc : forall c, letter_or_space c = true -> isdigit c = false).
  { intros c. destruct c as [[] [] [] [] [] [] [] []];
      vm_compute; intros H; first [reflexivity | discriminate H]. }
  unfold any_isdigit. induction s as [|c s IH]; simpl; [reflexivity|].
  intros [H1 H2]%andb_prop. now rewrite (Hc c H1), (IH H2).
Qed.

(** X26: a name found by the labeled pattern is not empty and is made of
    letters and whitespace only; it holds no digit. *)
Theorem labeled_name_characters
    (nlp : language_model) (text : string) (m : nat * state) :
  first_line allcaps_name (firstn 5 (split_on newline text)) = None ->
  search true name_label_pattern (take 1000 text) = Some m ->
  exists n, extract_name nlp text = Ok n
            /\ n <> ""
            /\ all_chars letter_or_space n = true
            /\ any_isdigit n = false.
Proof.
  intros H1 H2. exists (group (take 1000 text) m).
  unfold extract_name. rewrite H1, H2.
  apply name_label_group in H2.
  assert (Hletters : all_chars letter_or_space (group (take 1000 text) m) = true).
  { apply (lang_sets_within true _ name_words); [exact H2|].
    apply name_words_letters. }
  repeat split.
  - now apply name_words_nonempty in H2.
  - exact Hletters.
  - now apply letters_and_spaces_no_digit.
Qed.

Lemma labeled_name_characters_witness :
  exists n, extract_name failing_model "Full name - jean LUC picard, 2024" = Ok n
            /\ n <> ""
            /\ all_chars letter_or_space n = true
            /\ any_isdigit n = false.
Proof.
  refine (labeled_name_characters failing_model
            "Full name - jean LUC picard, 2024" _ eq_refl _).
  vm_compute. reflexivity.
Defined.
